(** * The current-profile service (userDataProfileService.ts)

    A shallow embedding of [UserDataProfileService]: the holder of the
    current user-data profile, its switch operation
    ([updateCurrentProfile]), its reaction to changes of the profile
    catalog (the callback installed by the constructor) and the short
    display name of a profile ([getShortName]). *)

From Stdlib Require Import Bool Arith ZArith Lia List Ascii String.
Import ListNotations.

Local Open Scope string_scope.
Local Open Scope list_scope.
Local Open Scope nat_scope.

(** ** JavaScript strings

    A string is a sequence of 16-bit code units.  A code unit is a
    natural number here (the bound 65536 plays no part), and a literal of
    the source is written [js "..."].  Indices are integers, as in
    JavaScript, because the source computes [name.length - 1], which is
    [-1] on the empty string. *)
Module JS.

Definition str : Type := list N.

(** The string with the code units of an ASCII literal. *)
Definition lit (s : string) : str := map N_of_ascii (list_ascii_of_string s).

(** [s1 === s2] on strings: the same code units. *)
Fixpoint eqb (s1 s2 : str) : bool :=
  match s1, s2 with
  | [], [] => true
  | u1 :: r1, u2 :: r2 => N.eqb u1 u2 && eqb r1 r2
  | _, _ => false
  end.

Definition length (s : str) : Z := Z.of_nat (List.length s).

(** [s.charAt(pos)]: the one-unit string at [pos], the empty string
    when [pos] is out of range. *)
Definition charAt (s : str) (pos : Z) : str :=
  if (pos <? 0)%Z then []
  else match nth_error s (Z.to_nat pos) with
       | Some c => [c]
       | None => []
       end.

Definition clamp (k len : Z) : Z := Z.min (Z.max k 0) len.

(** [s.substring(start, end)]: both ends are clamped to [0, length]
    and swapped when [start > end]. *)
Definition substring (s : str) (start end_ : Z) : str :=
  let len := length s in
  let finalStart := clamp start len in
  let finalEnd := clamp end_ len in
  let from := Z.min finalStart finalEnd in
  let to := Z.max finalStart finalEnd in
  firstn (Z.to_nat (to - from)) (skipn (Z.to_nat from) s).

(** Truthiness of an optional string: [undefined] and [""] are falsy. *)
Definition truthy (s : option str) : bool :=
  match s with
  | None => false
  | Some [] => false
  | Some _ => true
  end.

(** A string of ASCII code units only. *)
Definition isAscii (s : str) : bool := forallb (fun u => (u <? 128)%N) s.

(** Upper-casing on the ASCII range: the letters a to z (97 to 122) go to
    A to Z (65 to 90), every other unit stays. *)
Definition asciiUpperUnit (u : N) : N :=
  if ((97 <=? u) && (u <=? 122))%N then (u - 32)%N else u.

Definition asciiUpper (s : str) : str := map asciiUpperUnit s.

End JS.

Abbreviation js := JS.lit.

(** [String.prototype.toUpperCase] belongs to the JavaScript runtime; its
    case table covers all of Unicode and is not written out here.  It is
    a parameter, known through two facts: on a string of ASCII code units
    it maps the letters a to z and keeps the rest, and it makes no
    non-empty string empty. *)
Record CaseMapping := {
  toUpperCase : JS.str -> JS.str;
  toUpperCase_ascii :
    forall s, JS.isAscii s = true -> toUpperCase s = JS.asciiUpper s;
  toUpperCase_nonempty : forall s, toUpperCase s = [] -> s = []
}.

(** ** Data model *)

(** Modelled from the spec: the declaration of [IUserDataProfile]
    (vs/platform/userDataProfile) is not part of the sources at hand; the
    fields are those of the spec's Profile.  Profiles are immutable
    objects handed around by reference: [addr] is the identity of the
    object, the other fields are its attributes. *)
Record IUserDataProfile := {
  addr : nat;
  id : JS.str;
  name : JS.str;
  shortName : option JS.str;
  isDefault : bool;
  isTransient : bool
}.

(** Two references to profiles with the same attributes, whether or not
    they are the same object. *)
Definition sameAttributes (p q : IUserDataProfile) : Prop :=
  id p = id q /\ name p = name q /\ shortName p = shortName q /\
  isDefault p = isDefault q /\ isTransient p = isTransient q.

(** The icon returned by [registerIcon]; only its [id] is used. *)
Module ThemeIcon.
Record t := { id : JS.str }.
End ThemeIcon.

(** ** [getShortName] *)
Section ShortName.

Variable runtime : CaseMapping.

(** [registerIcon] is not part of the sources at hand: the registered
    icon is a parameter. *)
Variable defaultUserDataProfileIcon : ThemeIcon.t.

Definition getShortName (profile : IUserDataProfile) : JS.str :=
  if isDefault profile then
    js "$(" ++ ThemeIcon.id defaultUserDataProfileIcon ++ js ")"
  else if JS.truthy (shortName profile) then
    match shortName profile with Some s => s | None => [] end
  else if isTransient profile then
    js "T" ++ JS.charAt (name profile) (JS.length (name profile) - 1)
  else
    toUpperCase runtime (JS.substring (name profile) 0 2).

End ShortName.

(** ** Promises

    Time is a count of ticks.  A promise either settles at some tick, as
    fulfilled or as rejected with a reason, or stays pending for ever. *)
#[warnings="-register-all"]
Inductive Reason :=
| Err (msg : JS.str)
| AggregateError (errors : list Reason).

Inductive Settlement :=
| Fulfilled
| Rejected (reason : Reason).

Inductive Promise :=
| Never
| SettlesAt (t : nat) (s : Settlement).

(** What an observer of the promise sees at tick [t]; [None] is pending. *)
Definition stateAt (p : Promise) (t : nat) : option Settlement :=
  match p with
  | Never => None
  | SettlesAt t0 s => if t0 <=? t then Some s else None
  end.

Definition settledBy (t : nat) (p : Promise) : Prop := stateAt p t <> None.

Definition failure (p : Promise) : option Reason :=
  match p with
  | SettlesAt _ (Rejected r) => Some r
  | _ => None
  end.

Module Promises.

(** The reasons of the rejected promises, in the order of the list. *)
Fixpoint failures (promises : list Promise) : list Reason :=
  match promises with
  | [] => []
  | p :: rest =>
      match failure p with
      | Some r => r :: failures rest
      | None => failures rest
      end
  end.

(** The first tick from [now] on at which every promise has settled, if
    there is one. *)
Fixpoint allSettled (now : nat) (promises : list Promise) : option nat :=
  match promises with
  | [] => Some now
  | Never :: _ => None
  | SettlesAt t _ :: rest => allSettled (Nat.max now t) rest
  end.

(** Modelled from the spec: [Promises.settled] (vs/base/common/async) is
    not part of the sources at hand.  The combined promise waits until
    all the promises have settled, whether fulfilled or rejected; it is
    then rejected with the aggregate of the failures if there is one,
    and fulfilled otherwise. *)
Definition settled (now : nat) (promises : list Promise) : Promise :=
  match allSettled now promises with
  | None => Never
  | Some t =>
      SettlesAt t
        match failures promises with
        | [] => Fulfilled
        | errors => Rejected (AggregateError errors)
        end
  end.

End Promises.

(** ** Events and listeners *)

(** The payload of [onDidChangeCurrentProfile].  The fourth member of the
    source's event, [join], is a capability and not a datum: a listener
    uses it through the [Call] step of its script. *)
Record DidChangeUserDataProfileEvent := {
  preserveData : bool;
  previous : IUserDataProfile;
  profile : IUserDataProfile
}.

(** Modelled from the spec: the catalog's change batch
    [{added, updated, removed}] (vs/platform/userDataProfile). *)
Record DidChangeProfilesEvent := {
  added : list IUserDataProfile;
  updated : list IUserDataProfile;
  removed : list JS.str
}.

(** What a listener does while it runs: it may read the service's
    [currentProfile] and use the capability that came with the event, any
    number of times, and what it does next may depend on what it read.
    [C] is the type of the capability's argument: a promise for [join],
    the empty type for an event without capability.  A listener that
    calls back into the service while it runs is not described: the
    service assumes that switches do not overlap. *)
Inductive Script (C : Type) :=
| Done
| ReadCurrentProfile (k : IUserDataProfile -> Script C)
| Call (c : C) (k : Script C).

Arguments Done {C}.
Arguments ReadCurrentProfile {C} k.
Arguments Call {C} c k.

Definition Listener (T C : Type) : Type := T -> Script C.

(** The steps of the service that its environment can observe, in program
    order. *)
Inductive Step :=
| CurrentProfileSet (p : IUserDataProfile)
| ChangeListenerInvoked (i : nat) (e : DidChangeUserDataProfileEvent)
| UpdateListenerInvoked (i : nat)
| CurrentProfileRead (p : IUserDataProfile)
| JoinCalled (promise : Promise).

(** Modelled from the spec: [Emitter] (vs/base/common/event) is not part of
    the sources at hand.  An emitter is the ordered registry of its
    listeners; [event] appends a listener, [fire] invokes every listener
    synchronously in registration order. *)
Module Emitter.
Section Emitter.

Context {T C St : Type}.

Definition t : Type := list (Listener T C).

Definition event (emitter : t) (listener : Listener T C) : t :=
  emitter ++ [listener].

(** [call] is what the capability does to the state [St] it closes over,
    [called] and [invoked] are the steps to record. *)
Variable current : IUserDataProfile.
Variable call : C -> St -> St.
Variable called : C -> Step.
Variable invoked : nat -> T -> Step.

Fixpoint run (script : Script C) (st : St) : St * list Step :=
  match script with
  | Done => (st, [])
  | ReadCurrentProfile k =>
      let (st', steps) := run (k current) st in
      (st', CurrentProfileRead current :: steps)
  | Call c k =>
      let (st', steps) := run k (call c st) in
      (st', called c :: steps)
  end.

Fixpoint deliver (i : nat) (listeners : list (Listener T C)) (e : T) (st : St)
  : St * list Step :=
  match listeners with
  | [] => (st, [])
  | listener :: rest =>
      let (st1, steps1) := run (listener e) st in
      let (st2, steps2) := deliver (S i) rest e st1 in
      (st2, invoked i e :: steps1 ++ steps2)
  end.

Definition fire (emitter : t) (e : T) (st : St) : St * list Step :=
  deliver 0 emitter e st.

End Emitter.
End Emitter.

Arguments Emitter.t : clear implicits.

(** ** The service *)

Record UserDataProfileService := {
  _onDidChangeCurrentProfile : Emitter.t DidChangeUserDataProfileEvent Promise;
  _onDidUpdateCurrentProfile : Emitter.t unit Empty_set;
  _currentProfile : IUserDataProfile
}.

(** A method runs on the service, returns a value, leaves the service in a
    new state and records its observable steps. *)
Definition M (A : Type) : Type :=
  UserDataProfileService -> A * UserDataProfileService * list Step.

Definition ret {A} (a : A) : M A := fun this => (a, this, []).

Definition bind {A B} (m : M A) (f : A -> M B) : M B :=
  fun this =>
    let '(a, this1, steps1) := m this in
    let '(b, this2, steps2) := f a this1 in
    (b, this2, steps1 ++ steps2).

Notation "x <- m ;; f" := (bind m (fun x => f))
  (at level 61, m at next level, right associativity).
Notation "m ;; f" := (bind m (fun _ => f))
  (at level 61, right associativity).

Definition result {A} (r : A * UserDataProfileService * list Step) : A :=
  fst (fst r).
Definition after {A} (r : A * UserDataProfileService * list Step)
  : UserDataProfileService := snd (fst r).
Definition steps {A} (r : A * UserDataProfileService * list Step)
  : list Step := snd r.

(** [get currentProfile()] *)
Definition currentProfile (this : UserDataProfileService) : IUserDataProfile :=
  _currentProfile this.

Definition getCurrentProfile : M IUserDataProfile :=
  fun this => (_currentProfile this, this, []).

(** The service with [_currentProfile] replaced by [p]. *)
Definition withCurrentProfile (this : UserDataProfileService)
    (p : IUserDataProfile) : UserDataProfileService :=
  {| _onDidChangeCurrentProfile := _onDidChangeCurrentProfile this;
     _onDidUpdateCurrentProfile := _onDidUpdateCurrentProfile this;
     _currentProfile := p |}.

(** [this._currentProfile = p] *)
Definition setCurrentProfile (p : IUserDataProfile) : M unit :=
  fun this => (tt, withCurrentProfile this p, [CurrentProfileSet p]).

(** [this._onDidUpdateCurrentProfile.fire()] *)
Definition fireDidUpdateCurrentProfile : M unit :=
  fun this =>
    let (_, steps) :=
      Emitter.fire (_currentProfile this)
        (fun (c : Empty_set) (st : unit) => st)
        (fun c : Empty_set => match c with end)
        (fun i _ => UpdateListenerInvoked i)
        (_onDidUpdateCurrentProfile this) tt tt in
    (tt, this, steps).

(** [this._onDidChangeCurrentProfile.fire({preserveData, previous, profile,
    join(promise) { joiners.push(promise); }})], with the array [joiners]
    that [join] closes over passed in and returned. *)
Definition fireDidChangeCurrentProfile
    (e : DidChangeUserDataProfileEvent) (joiners : list Promise)
  : M (list Promise) :=
  fun this =>
    let join (promise : Promise) (joiners : list Promise) :=
      joiners ++ [promise] in
    let (joiners', steps) :=
      Emitter.fire (_currentProfile this) join JoinCalled
        ChangeListenerInvoked (_onDidChangeCurrentProfile this) e joiners in
    (joiners', this, steps).

(** The constructor: the initial state ... *)
Definition constructor (currentProfile : IUserDataProfile)
  : UserDataProfileService :=
  {| _onDidChangeCurrentProfile := [];
     _onDidUpdateCurrentProfile := [];
     _currentProfile := currentProfile |}.

(** ... and the callback it registers on the catalog's
    [onDidChangeProfiles]. *)
Definition onDidChangeProfiles (e : DidChangeProfilesEvent) : M unit :=
  current <- getCurrentProfile ;;
  let updatedCurrentProfile :=
    find (fun p => JS.eqb (id current) (id p)) (updated e) in
  match updatedCurrentProfile with
  | Some updatedCurrentProfile =>
      setCurrentProfile updatedCurrentProfile ;;
      fireDidUpdateCurrentProfile
  | None => ret tt
  end.

(** [async updateCurrentProfile(userDataProfile, preserveData)], called at
    tick [now]; the value is the promise the caller receives. *)
Definition updateCurrentProfile
    (userDataProfile : IUserDataProfile) (preserveData : bool) (now : nat)
  : M Promise :=
  current <- getCurrentProfile ;;
  if JS.eqb (id current) (id userDataProfile) then
    ret (SettlesAt now Fulfilled)
  else
    let previous := current in
    setCurrentProfile userDataProfile ;;
    joiners <- fireDidChangeCurrentProfile
                 {| preserveData := preserveData;
                    previous := previous;
                    profile := userDataProfile |} [] ;;
    ret (Promises.settled now joiners).

(** Registration of listeners ([onDidChangeCurrentProfile(listener)] and
    [onDidUpdateCurrentProfile(listener)]). *)
Definition onDidChangeCurrentProfile
    (listener : Listener DidChangeUserDataProfileEvent Promise) : M unit :=
  fun this =>
    (tt,
     {| _onDidChangeCurrentProfile :=
          Emitter.event (_onDidChangeCurrentProfile this) listener;
        _onDidUpdateCurrentProfile := _onDidUpdateCurrentProfile this;
        _currentProfile := _currentProfile this |},
     []).

Definition onDidUpdateCurrentProfile (listener : Listener unit Empty_set)
  : M unit :=
  fun this =>
    (tt,
     {| _onDidChangeCurrentProfile := _onDidChangeCurrentProfile this;
        _onDidUpdateCurrentProfile :=
          Emitter.event (_onDidUpdateCurrentProfile this) listener;
        _currentProfile := _currentProfile this |},
     []).

(** ** Reading a record of steps *)

Definition joins (l : list Step) : list Promise :=
  flat_map (fun s => match s with JoinCalled p => [p] | _ => [] end) l.

Definition reads (l : list Step) : list IUserDataProfile :=
  flat_map (fun s => match s with CurrentProfileRead p => [p] | _ => [] end) l.

Definition sets (l : list Step) : list IUserDataProfile :=
  flat_map (fun s => match s with CurrentProfileSet p => [p] | _ => [] end) l.

Definition changeInvocations (l : list Step)
  : list (nat * DidChangeUserDataProfileEvent) :=
  flat_map
    (fun s => match s with ChangeListenerInvoked i e => [(i, e)] | _ => [] end)
    l.

Definition updateInvocations (l : list Step) : list nat :=
  flat_map (fun s => match s with UpdateListenerInvoked i => [i] | _ => [] end)
    l.

(** A step taken by a listener, or on its behalf by the emitter. *)
Definition listenerStep (s : Step) : bool :=
  match s with
  | CurrentProfileSet _ => false
  | _ => true
  end.

(** The steps of one listener that runs on event [e] while the current
    profile is [current], and the arguments of its capability calls. *)
Fixpoint trace {C} (called : C -> Step) (current : IUserDataProfile)
    (script : Script C) : list Step :=
  match script with
  | Done => []
  | ReadCurrentProfile k =>
      CurrentProfileRead current :: trace called current (k current)
  | Call c k => called c :: trace called current k
  end.

Fixpoint calls {C} (current : IUserDataProfile) (script : Script C) : list C :=
  match script with
  | Done => []
  | ReadCurrentProfile k => calls current (k current)
  | Call c k => c :: calls current k
  end.

(** Listeners paired with their position in the registry, from [i] on. *)
Fixpoint enumerate {A} (i : nat) (l : list A) : list (nat * A) :=
  match l with
  | [] => []
  | a :: rest => (i, a) :: enumerate (S i) rest
  end.

(** The whole dispatch of [e] to the listeners [ls], one after the other. *)
Definition dispatch {T C} (called : C -> Step) (invoked : nat -> T -> Step)
    (current : IUserDataProfile) (e : T) (ls : list (nat * Listener T C))
  : list Step :=
  flat_map
    (fun il => invoked (fst il) e :: trace called current (snd il e)) ls.

(** Registration of several change listeners, one call after the other. *)
Definition registerAll
    (ls : list (Listener DidChangeUserDataProfileEvent Promise))
    (this : UserDataProfileService) : UserDataProfileService :=
  fold_left (fun s l => after (onDidChangeCurrentProfile l s)) ls this.

(** ** What the specification says of the short name *)

(** The last character of a string, nothing for the empty string. *)
Fixpoint lastCharacter (s : JS.str) : JS.str :=
  match s with
  | [] => []
  | [c] => [c]
  | _ :: rest => lastCharacter rest
  end.

(** The first [n] characters of a string, or all of it when it is shorter. *)
Fixpoint firstCharacters (n : nat) (s : JS.str) : JS.str :=
  match n, s with
  | S n', c :: rest => c :: firstCharacters n' rest
  | _, _ => []
  end.

(** The short name in the words of the specification. *)
Definition shortNameSpec (runtime : CaseMapping) (defaultToken : JS.str)
    (p : IUserDataProfile) : JS.str :=
  if isDefault p then defaultToken
  else match shortName p with
       | Some (c :: s) => c :: s
       | _ =>
           if isTransient p then js "T" ++ lastCharacter (name p)
           else toUpperCase runtime (firstCharacters 2 (name p))
       end.

(** The flag of a delivered event put aside, to compare what the service
    itself does in two runs that differ in the flag. *)
Definition eraseFlag (s : Step) : Step :=
  match s with
  | ChangeListenerInvoked i e =>
      ChangeListenerInvoked i
        {| preserveData := false; previous := previous e;
           profile := profile e |}
  | _ => s
  end.

(** ** Sample values *)
Module Sample.

Definition icon : ThemeIcon.t := {| ThemeIcon.id := js "defaultProfile-icon" |}.

(** A case mapping to run the examples with: the ASCII table applied to
    every unit.  It agrees with the runtime's [toUpperCase] on ASCII
    strings, which the names of this module are, and stands for nothing
    beyond them. *)
Definition asciiOnly : CaseMapping.
Proof.
  refine {| toUpperCase := JS.asciiUpper |}.
  - intros s _. reflexivity.
  - intros [|u s] H; [reflexivity | discriminate H].
Defined.

Definition defaultProfile : IUserDataProfile :=
  {| addr := 1; id := js "__default__profile__"; name := js "Default";
     shortName := None; isDefault := true; isTransient := false |}.

Definition work : IUserDataProfile :=
  {| addr := 2; id := js "work"; name := js "alpha";
     shortName := None; isDefault := false; isTransient := false |}.

(** The catalog's new value for [work] after a rename. *)
Definition workRenamed : IUserDataProfile :=
  {| addr := 3; id := js "work"; name := js "beta";
     shortName := Some (js "AB"); isDefault := false; isTransient := false |}.

(** Another object with the attributes of [work]. *)
Definition workCopy : IUserDataProfile :=
  {| addr := 4; id := js "work"; name := js "alpha";
     shortName := None; isDefault := false; isTransient := false |}.

Definition temp : IUserDataProfile :=
  {| addr := 5; id := js "temp"; name := js "Work1";
     shortName := None; isDefault := false; isTransient := true |}.

(** A transient profile without a name. *)
Definition unnamed : IUserDataProfile :=
  {| addr := 6; id := js "unnamed"; name := js "";
     shortName := None; isDefault := false; isTransient := true |}.

Definition single : IUserDataProfile :=
  {| addr := 7; id := js "single"; name := js "x";
     shortName := Some (js ""); isDefault := false; isTransient := false |}.

(** Joins a task that fails at tick 5, named after the profile it reads,
    and a task that succeeds at tick 9. *)
Definition L1 : Listener DidChangeUserDataProfileEvent Promise :=
  fun e =>
    ReadCurrentProfile (fun p =>
      Call (SettlesAt 5 (Rejected (Err (id p))))
        (Call (SettlesAt 9 Fulfilled) Done)).

(** Joins a task only when data is not preserved. *)
Definition L2 : Listener DidChangeUserDataProfileEvent Promise :=
  fun e =>
    if preserveData e then Done
    else Call (SettlesAt 3 (Rejected (Err (js "flush")))) Done.

(** Joins nothing. *)
Definition L3 : Listener DidChangeUserDataProfileEvent Promise :=
  fun e => Done.

Definition U1 : Listener unit Empty_set :=
  fun _ => ReadCurrentProfile (fun _ => Done).

Definition U2 : Listener unit Empty_set := fun _ => Done.

(** A service on the default profile with three change listeners and
    two update listeners. *)
Definition service : UserDataProfileService :=
  after (onDidUpdateCurrentProfile U2
    (after (onDidUpdateCurrentProfile U1
      (registerAll [L1; L2; L3] (constructor defaultProfile))))).

(** The same service once [work] is current. *)
Definition atWork : UserDataProfileService := withCurrentProfile service work.

Definition batch (l : list IUserDataProfile) : DidChangeProfilesEvent :=
  {| added := []; updated := l; removed := [] |}.

End Sample.

(** ** The service over its lifetime

    What the rest of the workbench does with the service, one operation
    after the other: it asks for a switch, the catalog delivers a change
    batch, or somebody subscribes to one of the two events. *)
Inductive Op :=
| Switch (target : IUserDataProfile) (preserveData : bool) (now : nat)
| Catalog (e : DidChangeProfilesEvent)
| ListenChange (l : Listener DidChangeUserDataProfileEvent Promise)
| ListenUpdate (l : Listener unit Empty_set).

Definition perform (op : Op) : M unit :=
  match op with
  | Switch target preserveData now =>
      _ <- updateCurrentProfile target preserveData now ;; ret tt
  | Catalog e => onDidChangeProfiles e
  | ListenChange l => onDidChangeCurrentProfile l
  | ListenUpdate l => onDidUpdateCurrentProfile l
  end.

Fixpoint performAll (ops : list Op) : M unit :=
  match ops with
  | [] => ret tt
  | op :: rest => perform op ;; performAll rest
  end.

(** The profiles that a sequence of operations hands to the service. *)
Fixpoint offered (ops : list Op) : list IUserDataProfile :=
  match ops with
  | [] => []
  | Switch target _ _ :: rest => target :: offered rest
  | Catalog e :: rest => updated e ++ offered rest
  | _ :: rest => offered rest
  end.

(** The id of the target of the last switch of a sequence, [start] when
    the sequence has no switch. *)
Fixpoint lastSwitchId (start : JS.str) (ops : list Op) : JS.str :=
  match ops with
  | [] => start
  | Switch target _ _ :: rest => lastSwitchId (id target) rest
  | _ :: rest => lastSwitchId start rest
  end.

(** The listeners that a sequence of operations subscribes, in order. *)
Fixpoint changeSubscriptions (ops : list Op)
  : list (Listener DidChangeUserDataProfileEvent Promise) :=
  match ops with
  | [] => []
  | ListenChange l :: rest => l :: changeSubscriptions rest
  | _ :: rest => changeSubscriptions rest
  end.

Fixpoint updateSubscriptions (ops : list Op) : list (Listener unit Empty_set) :=
  match ops with
  | [] => []
  | ListenUpdate l :: rest => l :: updateSubscriptions rest
  | _ :: rest => updateSubscriptions rest
  end.

Module Scenario.

(** Joins a task that never finishes. *)
Definition stuck : Listener DidChangeUserDataProfileEvent Promise :=
  fun e => Call Never Done.

(** A service on [work] with a listener whose task never finishes. *)
Definition hanging : UserDataProfileService :=
  after (onDidChangeCurrentProfile stuck Sample.atWork).

(** A session: two subscriptions, a switch to [work], a rename of [work]
    in the catalog, a switch to a transient profile. *)
Definition session : list Op :=
  [ListenChange Sample.L3; ListenUpdate Sample.U1;
   Switch Sample.work true 1;
   Catalog (Sample.batch [Sample.workRenamed]);
   Switch Sample.temp false 4].

End Scenario.

(** Closes a goal [a <> b] between distinct closed values. *)
Ltac differ := let H := fresh in intro H; vm_compute in H; discriminate H.

(** ** Lemmas on string equality *)

Lemma str_eqb_eq (s1 s2 : JS.str) : JS.eqb s1 s2 = true <-> s1 = s2.
Proof.
  revert s2; induction s1 as [|u r IH]; intros [|v t]; simpl;
    try (split; [discriminate | discriminate]); [tauto|].
  rewrite andb_true_iff, N.eqb_eq, IH. split.
  - intros [-> ->]. reflexivity.
  - intros H. injection H as -> ->. auto.
Qed.

Lemma str_eqb_neq (s1 s2 : JS.str) : JS.eqb s1 s2 = false <-> s1 <> s2.
Proof.
  rewrite <- str_eqb_eq. destruct (JS.eqb s1 s2); split; congruence.
Qed.

Lemma str_eqb_spec (s1 s2 : JS.str) : reflect (s1 = s2) (JS.eqb s1 s2).
Proof.
  destruct (JS.eqb s1 s2) eqn:E; constructor.
  - now apply str_eqb_eq.
  - now apply str_eqb_neq.
Qed.

(** ** Lemmas on the emitter *)
Section EmitterFacts.

Context {T C St : Type}.
Variable current : IUserDataProfile.
Variable call : C -> St -> St.
Variable called : C -> Step.
Variable invoked : nat -> T -> Step.

Lemma run_trace (script : Script C) (st : St) :
  Emitter.run current call called script st =
  (fold_left (fun s c => call c s) (calls current script) st,
   trace called current script).
Proof.
  revert st; induction script as [|k IH|c k IH]; intros st; simpl.
  - reflexivity.
  - rewrite IH. reflexivity.
  - rewrite IH. reflexivity.
Qed.

Lemma deliver_dispatch (ls : list (Listener T C)) (e : T) :
  forall (i : nat) (st : St),
    Emitter.deliver current call called invoked i ls e st =
    (fold_left (fun s c => call c s)
       (flat_map (fun l => calls current (l e)) ls) st,
     dispatch called invoked current e (enumerate i ls)).
Proof.
  induction ls as [|l rest IH]; intros i st; simpl.
  - reflexivity.
  - rewrite run_trace, IH, fold_left_app. reflexivity.
Qed.

End EmitterFacts.

Lemma push_all (ps : list Promise) :
  forall js, fold_left (fun joiners p => joiners ++ [p]) ps js = js ++ ps.
Proof.
  induction ps as [|p ps IH]; intros js; simpl.
  - now rewrite app_nil_r.
  - rewrite IH, <- app_assoc. reflexivity.
Qed.

Lemma joins_app (l1 l2 : list Step) : joins (l1 ++ l2) = joins l1 ++ joins l2.
Proof. apply flat_map_app. Qed.

Lemma joins_trace (current : IUserDataProfile) (script : Script Promise) :
  joins (trace JoinCalled current script) = calls current script.
Proof.
  induction script as [|k IH|c k IH]; simpl; auto.
  unfold joins in *. simpl. now f_equal.
Qed.

Lemma joins_dispatch (current : IUserDataProfile)
    (e : DidChangeUserDataProfileEvent)
    (ls : list (Listener DidChangeUserDataProfileEvent Promise)) :
  forall i,
    joins (dispatch JoinCalled ChangeListenerInvoked current e (enumerate i ls))
    = flat_map (fun l => calls current (l e)) ls.
Proof.
  induction ls as [|l rest IH]; intros i; simpl; auto.
  unfold dispatch in *. simpl.
  change (joins (ChangeListenerInvoked i e :: ?x)) with (joins x).
  rewrite joins_app, joins_trace. f_equal. apply IH.
Qed.

(** ** Lemmas on promises *)

Lemma settledBy_SettlesAt (t t0 : nat) (s : Settlement) :
  settledBy t (SettlesAt t0 s) <-> t0 <= t.
Proof.
  unfold settledBy; simpl. destruct (Nat.leb_spec t0 t); split; intros H0.
  - assumption.
  - discriminate.
  - now contradiction H0.
  - lia.
Qed.

Lemma settledBy_Never (t : nat) : ~ settledBy t Never.
Proof. unfold settledBy; simpl. intros H; now apply H. Qed.

Lemma settledBy_settled_allSettled (now t : nat) (ps : list Promise) :
  settledBy t (Promises.settled now ps) <->
  exists t0, Promises.allSettled now ps = Some t0 /\ t0 <= t.
Proof.
  unfold Promises.settled.
  destruct (Promises.allSettled now ps) as [t0|]; split.
  - intros H. exists t0. split; [reflexivity|]. now apply settledBy_SettlesAt in H.
  - intros [t1 [E H]]. injection E as <-. now apply settledBy_SettlesAt.
  - intros H. now apply settledBy_Never in H.
  - intros [t1 [E _]]. discriminate.
Qed.

(** The combined promise has settled by [t] exactly when [t] is not before
    the call and every promise of the list has settled by [t]. *)
Lemma settledBy_settled (ps : list Promise) :
  forall now t,
    settledBy t (Promises.settled now ps) <->
    now <= t /\ Forall (settledBy t) ps.
Proof.
  induction ps as [|p rest IH]; intros now t.
  - unfold Promises.settled; simpl. rewrite settledBy_SettlesAt.
    split; [intros H; split; [assumption|constructor] | now intros [H _]].
  - rewrite settledBy_settled_allSettled. destruct p as [|t0 s]; simpl.
    + split.
      * intros [t1 [E _]]. discriminate.
      * intros [_ H]. inversion H as [|? ? Hp _]. now apply settledBy_Never in Hp.
    + rewrite <- settledBy_settled_allSettled, IH. split.
      * intros [Hm HF]. split; [lia|]. constructor; [|assumption].
        apply settledBy_SettlesAt. lia.
      * intros [Hn HF]. inversion HF as [|? ? Hp HF']; subst.
        apply settledBy_SettlesAt in Hp. split; [lia|assumption].
Qed.

Lemma In_failures (ps : list Promise) (r : Reason) :
  In r (Promises.failures ps) <-> exists p, In p ps /\ failure p = Some r.
Proof.
  induction ps as [|p rest IH]; simpl.
  - split; [intros [] | intros [p [[] _]]].
  - destruct (failure p) as [r0|] eqn:E; simpl; rewrite ?IH; split.
    + intros [<-|[q [Hq Hf]]]; [exists p; auto | exists q; auto].
    + intros [q [[<-|Hq] Hf]]; [left; congruence | right; exists q; auto].
    + intros [q [Hq Hf]]. exists q; auto.
    + intros [q [[<-|Hq] Hf]]; [congruence | exists q; auto].
Qed.

Lemma failures_nonempty (ps : list Promise) :
  Promises.failures ps <> [] <-> Exists (fun p => failure p <> None) ps.
Proof.
  rewrite Exists_exists. split.
  - destruct (Promises.failures ps) as [|r l] eqn:E; [congruence|]. intros _.
    assert (H : In r (Promises.failures ps)) by (rewrite E; now left).
    apply In_failures in H as [p [Hp Hf]]. exists p. split; [assumption|congruence].
  - intros [p [Hp Hf]] E. destruct (failure p) as [r|] eqn:Er; [|congruence].
    assert (H : In r (Promises.failures ps)) by (apply In_failures; eauto).
    rewrite E in H. destruct H.
Qed.

(** The combined promise is seen as rejected at [t] exactly when it has
    settled by [t] and some promise of the list failed; the reason is then
    the aggregate of all the failures. *)
Lemma rejected_settled (now t : nat) (ps : list Promise) (reason : Reason) :
  stateAt (Promises.settled now ps) t = Some (Rejected reason) <->
  settledBy t (Promises.settled now ps) /\
  Promises.failures ps <> [] /\
  reason = AggregateError (Promises.failures ps).
Proof.
  unfold settledBy, Promises.settled.
  destruct (Promises.allSettled now ps) as [t0|]; simpl.
  - destruct (t0 <=? t); destruct (Promises.failures ps) as [|r l]; split;
      try (intros H; discriminate H);
      try (intros [H1 [H2 H3]]; congruence).
    intros H. injection H as <-. repeat split; congruence.
  - split; [discriminate | intros [H _]; congruence].
Qed.

(** ** Lemmas on the service *)

Lemma after_triple {A} (a : A) (s : UserDataProfileService) (l : list Step) :
  after (a, s, l) = s.
Proof. reflexivity. Qed.

Lemma steps_triple {A} (a : A) (s : UserDataProfileService) (l : list Step) :
  steps (a, s, l) = l.
Proof. reflexivity. Qed.

Lemma steps_dispatch_listenerStep {T C} (called : C -> Step)
    (invoked : nat -> T -> Step) (current : IUserDataProfile) (e : T)
    (ls : list (nat * Listener T C)) :
  (forall c, listenerStep (called c) = true) ->
  (forall i, listenerStep (invoked i e) = true) ->
  forallb listenerStep (dispatch called invoked current e ls) = true.
Proof.
  intros Hc Hi. unfold dispatch.
  induction ls as [|[i l] rest IH]; simpl; [reflexivity|].
  rewrite Hi, forallb_app, IH, andb_true_r. simpl.
  generalize (l e). intros script.
  induction script as [|k IHk|c k IHk]; simpl; auto.
  now rewrite Hc.
Qed.

Lemma reads_cons (s : Step) (l : list Step) :
  reads (s :: l) = reads [s] ++ reads l.
Proof. unfold reads. simpl. now rewrite app_nil_r. Qed.

Lemma reads_trace {C} (called : C -> Step) (current : IUserDataProfile)
    (script : Script C) :
  (forall c, reads [called c] = []) ->
  Forall (fun p => p = current) (reads (trace called current script)).
Proof.
  intros Hc. induction script as [|k IH|c k IH]; cbn [trace].
  - constructor.
  - rewrite reads_cons. constructor; [reflexivity | apply IH].
  - rewrite reads_cons, Hc. assumption.
Qed.

Lemma reads_dispatch {T C} (called : C -> Step) (invoked : nat -> T -> Step)
    (current : IUserDataProfile) (e : T) (ls : list (nat * Listener T C)) :
  (forall c, reads [called c] = []) ->
  (forall i, reads [invoked i e] = []) ->
  Forall (fun p => p = current) (reads (dispatch called invoked current e ls)).
Proof.
  intros Hc Hi. unfold dispatch.
  induction ls as [|[i l] rest IH]; cbn [flat_map fst snd]; [constructor|].
  rewrite <- app_comm_cons, reads_cons, Hi. cbn [app].
  unfold reads at 1. rewrite flat_map_app.
  apply Forall_app. split; [apply reads_trace; assumption | apply IH].
Qed.

Lemma changeInvocations_trace (current : IUserDataProfile)
    (script : Script Promise) :
  changeInvocations (trace JoinCalled current script) = [].
Proof. induction script as [|k IH|c k IH]; simpl; auto. Qed.

Lemma changeInvocations_dispatch (current : IUserDataProfile)
    (e : DidChangeUserDataProfileEvent)
    (ls : list (Listener DidChangeUserDataProfileEvent Promise)) :
  forall i,
    changeInvocations
      (dispatch JoinCalled ChangeListenerInvoked current e (enumerate i ls))
    = map (fun k => (k, e)) (seq i (List.length ls)).
Proof.
  induction ls as [|l rest IH]; intros i; simpl; [reflexivity|].
  unfold dispatch in *. simpl. f_equal.
  unfold changeInvocations at 1. rewrite flat_map_app.
  fold (changeInvocations (trace JoinCalled current (l e))).
  rewrite changeInvocations_trace. simpl. apply IH.
Qed.

Lemma sets_dispatch {T C} (called : C -> Step) (invoked : nat -> T -> Step)
    (current : IUserDataProfile) (e : T) (ls : list (nat * Listener T C)) :
  forallb listenerStep (dispatch called invoked current e ls) = true ->
  sets (dispatch called invoked current e ls) = [].
Proof.
  generalize (dispatch called invoked current e ls). intros l.
  induction l as [|s l IH]; simpl; [reflexivity|].
  intros H. apply andb_prop in H as [Hs Hl].
  destruct s; simpl in *; try discriminate; auto.
Qed.

Lemma updateTrace_plain (current : IUserDataProfile) (script : Script Empty_set) :
  updateInvocations
    (trace (fun c : Empty_set => match c with end) current script) = [] /\
  changeInvocations
    (trace (fun c : Empty_set => match c with end) current script) = [] /\
  joins (trace (fun c : Empty_set => match c with end) current script) = [].
Proof.
  induction script as [|k IH|c k IH]; simpl; auto. destruct c.
Qed.

Lemma updateDispatch_plain (current : IUserDataProfile)
    (ls : list (Listener unit Empty_set)) :
  forall i,
    let l := dispatch (fun c : Empty_set => match c with end)
               (fun k _ => UpdateListenerInvoked k) current tt (enumerate i ls) in
    updateInvocations l = seq i (List.length ls) /\
    changeInvocations l = [] /\ joins l = [].
Proof.
  induction ls as [|l rest IH]; intros i; simpl; [auto|].
  destruct (IH (S i)) as [H1 [H2 H3]].
  destruct (updateTrace_plain current (l tt)) as [T1 [T2 T3]].
  unfold dispatch in *. simpl.
  unfold updateInvocations, changeInvocations, joins in *. simpl.
  rewrite !flat_map_app, T1, T2, T3, H1, H2, H3. auto.
Qed.

Lemma registerAll_state
    (ls : list (Listener DidChangeUserDataProfileEvent Promise)) :
  forall this,
    _onDidChangeCurrentProfile (registerAll ls this)
    = _onDidChangeCurrentProfile this ++ ls /\
    _onDidUpdateCurrentProfile (registerAll ls this)
    = _onDidUpdateCurrentProfile this /\
    _currentProfile (registerAll ls this) = _currentProfile this.
Proof.
  induction ls as [|l rest IH]; intros this; simpl.
  - now rewrite app_nil_r.
  - destruct (IH (after (onDidChangeCurrentProfile l this))) as [H1 [H2 H3]].
    unfold registerAll in *. rewrite H1, H2, H3. simpl.
    unfold Emitter.event. now rewrite <- app_assoc.
Qed.

(** The switch to a profile with the current id does nothing. *)
Lemma updateCurrentProfile_same (this : UserDataProfileService)
    (target : IUserDataProfile) (pd : bool) (now : nat) :
  id (currentProfile this) = id target ->
  updateCurrentProfile target pd now this = (SettlesAt now Fulfilled, this, []).
Proof.
  intros H. apply str_eqb_eq in H.
  unfold updateCurrentProfile, bind, getCurrentProfile, currentProfile in *.
  now rewrite H.
Qed.

(** The switch to a profile with another id, step by step. *)
Lemma updateCurrentProfile_switch (this : UserDataProfileService)
    (target : IUserDataProfile) (pd : bool) (now : nat) :
  id (currentProfile this) <> id target ->
  let e := {| preserveData := pd; previous := currentProfile this;
              profile := target |} in
  let registry := _onDidChangeCurrentProfile this in
  updateCurrentProfile target pd now this =
  (Promises.settled now (flat_map (fun l => calls target (l e)) registry),
   withCurrentProfile this target,
   CurrentProfileSet target ::
     dispatch JoinCalled ChangeListenerInvoked target e (enumerate 0 registry)).
Proof.
  intros H. apply str_eqb_neq in H.
  unfold updateCurrentProfile, bind, getCurrentProfile, currentProfile in *.
  rewrite H. unfold setCurrentProfile, fireDidChangeCurrentProfile, Emitter.fire.
  simpl. rewrite deliver_dispatch, push_all. simpl.
  rewrite ?app_nil_r. reflexivity.
Qed.

Lemma find_first {A} (f : A -> bool) (l : list A) (a : A) :
  find f l = Some a ->
  exists pre post,
    l = pre ++ a :: post /\ f a = true /\ forall b, In b pre -> f b = false.
Proof.
  induction l as [|x l IH]; simpl; [discriminate|].
  destruct (f x) eqn:E.
  - intros H. injection H as <-. exists [], l. simpl. repeat split; auto.
    intros b [].
  - intros H. destruct (IH H) as [pre [post [-> [Ha Hp]]]].
    exists (x :: pre), post. repeat split; auto.
    intros b [<-|Hb]; auto.
Qed.

Lemma onDidChangeProfiles_found (this : UserDataProfileService)
    (e : DidChangeProfilesEvent) (p : IUserDataProfile) :
  find (fun q => JS.eqb (id (currentProfile this)) (id q)) (updated e)
  = Some p ->
  onDidChangeProfiles e this =
  (tt, withCurrentProfile this p,
   CurrentProfileSet p ::
     dispatch (fun c : Empty_set => match c with end)
       (fun k _ => UpdateListenerInvoked k) p tt
       (enumerate 0 (_onDidUpdateCurrentProfile this))).
Proof.
  intros H.
  unfold onDidChangeProfiles, bind, getCurrentProfile, currentProfile in *.
  rewrite H. unfold setCurrentProfile, fireDidUpdateCurrentProfile, Emitter.fire.
  simpl. rewrite deliver_dispatch. simpl. rewrite ?app_nil_r. reflexivity.
Qed.

Lemma onDidChangeProfiles_not_found (this : UserDataProfileService)
    (e : DidChangeProfilesEvent) :
  find (fun q => JS.eqb (id (currentProfile this)) (id q)) (updated e)
  = None ->
  onDidChangeProfiles e this = (tt, this, []).
Proof.
  intros H.
  unfold onDidChangeProfiles, bind, getCurrentProfile, currentProfile in *.
  now rewrite H.
Qed.

(** The two ways a call of [updateCurrentProfile] can go. *)
Lemma updateCurrentProfile_cases (this : UserDataProfileService)
    (target : IUserDataProfile) (pd : bool) (now : nat) :
  (id (currentProfile this) = id target /\
   updateCurrentProfile target pd now this = (SettlesAt now Fulfilled, this, []))
  \/
  (id (currentProfile this) <> id target /\
   updateCurrentProfile target pd now this =
   (Promises.settled now
      (flat_map
         (fun l => calls target
                     (l {| preserveData := pd; previous := currentProfile this;
                           profile := target |}))
         (_onDidChangeCurrentProfile this)),
    withCurrentProfile this target,
    CurrentProfileSet target ::
      dispatch JoinCalled ChangeListenerInvoked target
        {| preserveData := pd; previous := currentProfile this;
           profile := target |}
        (enumerate 0 (_onDidChangeCurrentProfile this)))).
Proof.
  destruct (str_eqb_spec (id (currentProfile this)) (id target)) as [E|N].
  - left. split; [exact E | now apply updateCurrentProfile_same].
  - right. split; [exact N | now apply updateCurrentProfile_switch].
Qed.

(** The joined promises are what the switch waits for. *)
Lemma result_updateCurrentProfile (this : UserDataProfileService)
    (target : IUserDataProfile) (pd : bool) (now : nat) :
  let r := updateCurrentProfile target pd now this in
  result r = Promises.settled now (joins (steps r)).
Proof.
  intros r. subst r.
  destruct (updateCurrentProfile_cases this target pd now) as [[E ->]|[N ->]];
    unfold result, steps; cbn [fst snd].
  - reflexivity.
  - change (joins (CurrentProfileSet target :: ?x)) with (joins x).
    now rewrite joins_dispatch.
Qed.

Lemma flat_map_agree {A B} (f g : A -> list B) (l : list A) :
  (forall a, In a l -> f a = g a) -> flat_map f l = flat_map g l.
Proof.
  induction l as [|a l IH]; intros H; simpl; [reflexivity|].
  rewrite (H a (or_introl eq_refl)), IH; [reflexivity|].
  intros b Hb. apply H. now right.
Qed.

Lemma eraseFlag_trace (current : IUserDataProfile) (script : Script Promise) :
  map eraseFlag (trace JoinCalled current script)
  = trace JoinCalled current script.
Proof.
  induction script as [|k IH|c k IH]; simpl; auto; now rewrite IH.
Qed.

(** Two dispatches of events that differ in the flag only, to listeners
    that do the same on both, differ in the flag of the events only. *)
Lemma eraseFlag_dispatch (current : IUserDataProfile)
    (e1 e2 : DidChangeUserDataProfileEvent)
    (ls : list (Listener DidChangeUserDataProfileEvent Promise)) :
  previous e1 = previous e2 -> profile e1 = profile e2 ->
  (forall l, In l ls -> l e1 = l e2) ->
  forall i,
    map eraseFlag
      (dispatch JoinCalled ChangeListenerInvoked current e1 (enumerate i ls))
    = map eraseFlag
        (dispatch JoinCalled ChangeListenerInvoked current e2 (enumerate i ls)).
Proof.
  intros Hprev Hprof. unfold dispatch.
  induction ls as [|l rest IH]; intros Hl i; [reflexivity|].
  cbn [enumerate flat_map fst snd map]. rewrite !map_app.
  rewrite (Hl l (or_introl eq_refl)), IH by (intros l' Hl'; apply Hl; now right).
  cbn [map eraseFlag]. now rewrite Hprev, Hprof.
Qed.

(** ** Lemmas on strings *)

Lemma get_last (s : JS.str) :
  forall c, exists x,
    nth_error (c :: s) (List.length s) = Some x /\
    lastCharacter (c :: s) = [x].
Proof.
  induction s as [|d s IH]; intros c.
  - exists c. split; reflexivity.
  - destruct (IH d) as [x [Hg Hl]]. exists x. split.
    + exact Hg.
    + change (lastCharacter (c :: d :: s)) with (lastCharacter (d :: s)).
      exact Hl.
Qed.

(** [name.charAt(name.length - 1)] is the last character of [name]. *)
Lemma charAt_last (s : JS.str) :
  JS.charAt s (JS.length s - 1) = lastCharacter s.
Proof.
  destruct s as [|c s]; [reflexivity|].
  destruct (get_last s c) as [x [Hg Hl]].
  unfold JS.charAt, JS.length. cbn [List.length].
  replace (Z.of_nat (S (List.length s)) - 1)%Z
    with (Z.of_nat (List.length s)) by lia.
  destruct (Z.ltb_spec (Z.of_nat (List.length s)) 0); [lia|].
  rewrite Nat2Z.id, Hg. symmetry. exact Hl.
Qed.

Lemma firstn_firstCharacters (m : nat) (s : JS.str) :
  firstn m s = firstCharacters m s.
Proof.
  revert s; induction m as [|m IH]; intros [|c s]; simpl; congruence.
Qed.

Lemma firstCharacters_min (n : nat) (s : JS.str) :
  firstCharacters (Nat.min n (List.length s)) s = firstCharacters n s.
Proof.
  revert s; induction n as [|n IH]; intros [|c s]; simpl; auto.
  now rewrite IH.
Qed.

Lemma firstCharacters_all (n : nat) (s : JS.str) :
  List.length s <= n -> firstCharacters n s = s.
Proof.
  revert s; induction n as [|n IH]; intros [|c s]; simpl; auto; intros H.
  - lia.
  - rewrite IH by lia. reflexivity.
Qed.

(** [name.substring(0, n)] is the first [n] characters of [name]. *)
Lemma substring_first (n : nat) (s : JS.str) :
  JS.substring s 0 (Z.of_nat n) = firstCharacters n s.
Proof.
  unfold JS.substring, JS.clamp, JS.length. cbv zeta.
  match goal with
  | |- firstn (Z.to_nat ?a) (skipn (Z.to_nat ?b) s) = _ =>
      replace a with (Z.of_nat (Nat.min n (List.length s))) by lia;
      replace b with 0%Z by lia
  end.
  rewrite Nat2Z.id. cbn [Z.to_nat skipn].
  now rewrite firstn_firstCharacters, firstCharacters_min.
Qed.

Lemma asciiUpper_nth (s : JS.str) (i : nat) (u : N) :
  nth_error s i = Some u ->
  nth_error (JS.asciiUpper s) i
  = Some (if ((97 <=? u) && (u <=? 122))%N then (u - 32)%N else u).
Proof.
  intros H. unfold JS.asciiUpper. rewrite nth_error_map, H. reflexivity.
Qed.

(** The source's [getShortName] computes the short name of the
    specification. *)
Lemma getShortName_shortNameSpec (runtime : CaseMapping) (icon : ThemeIcon.t)
    (p : IUserDataProfile) :
  getShortName runtime icon p
  = shortNameSpec runtime (js "$(" ++ ThemeIcon.id icon ++ js ")") p.
Proof.
  unfold getShortName, shortNameSpec.
  destruct (isDefault p); [reflexivity|].
  destruct (shortName p) as [[|c s]|]; simpl; try reflexivity.
  - destruct (isTransient p).
    + now rewrite charAt_last.
    + now rewrite (substring_first 2).
  - destruct (isTransient p).
    + now rewrite charAt_last.
    + now rewrite (substring_first 2).
Qed.

(** ** The short name *)

(** C5. [getShortName] decides in this order: a default profile yields the
    reserved token whatever its other fields; otherwise a non-empty
    [shortName] is returned verbatim; otherwise a transient profile yields
    the transient token; otherwise the first two characters of [name] are
    returned upper-cased by the runtime's [toUpperCase], and a name of
    fewer than two characters is returned upper-cased as it is, without
    padding.  When those characters are ASCII the result has as many
    units as they are, with the letters a to z replaced by A to Z and the
    other units kept.  So [{shortName:"AB"}] yields ["AB"],
    [{name:"alpha"}] yields ["AL"] and [{name:"x"}] yields ["X"]. *)
Theorem getShortName_precedence (runtime : CaseMapping) (icon : ThemeIcon.t)
    (p : IUserDataProfile) :
  (isDefault p = true ->
   getShortName runtime icon p = js "$(" ++ ThemeIcon.id icon ++ js ")") /\
  (isDefault p = false ->
   forall s, shortName p = Some s -> s <> [] ->
             getShortName runtime icon p = s) /\
  (isDefault p = false -> JS.truthy (shortName p) = false ->
   isTransient p = true ->
   getShortName runtime icon p
   = js "T" ++ JS.charAt (name p) (JS.length (name p) - 1) /\
   getShortName runtime icon p = js "T" ++ lastCharacter (name p)) /\
  (isDefault p = false -> JS.truthy (shortName p) = false ->
   isTransient p = false ->
   getShortName runtime icon p
   = toUpperCase runtime (firstCharacters 2 (name p)) /\
   (List.length (name p) < 2 ->
    getShortName runtime icon p = toUpperCase runtime (name p)) /\
   (JS.isAscii (firstCharacters 2 (name p)) = true ->
    List.length (getShortName runtime icon p)
    = Nat.min 2 (List.length (name p)) /\
    forall i u,
      nth_error (name p) i = Some u -> i < 2 ->
      nth_error (getShortName runtime icon p) i
      = Some (if ((97 <=? u) && (u <=? 122))%N then (u - 32)%N else u))) /\
  (forall a i n t,
     getShortName runtime icon
       {| addr := a; id := i; name := n; shortName := Some (js "AB");
          isDefault := false; isTransient := t |} = js "AB") /\
  (forall a i,
     getShortName runtime icon
       {| addr := a; id := i; name := js "alpha"; shortName := None;
          isDefault := false; isTransient := false |} = js "AL") /\
  (forall a i,
     getShortName runtime icon
       {| addr := a; id := i; name := js "x"; shortName := None;
          isDefault := false; isTransient := false |} = js "X").
Proof.
  split; [|split; [|split; [|split; [|split; [|split]]]]].
  - intros Hd. unfold getShortName. now rewrite Hd.
  - intros Hd s Hs Hne. unfold getShortName. rewrite Hd, Hs.
    destruct s; [now contradiction Hne | reflexivity].
  - intros Hd Hs Ht. split.
    + unfold getShortName. now rewrite Hd, Hs, Ht.
    + rewrite getShortName_shortNameSpec. unfold shortNameSpec.
      rewrite Hd, Ht. destruct (shortName p) as [[|c s]|]; try reflexivity.
      discriminate Hs.
  - intros Hd Hs Ht.
    assert (E : getShortName runtime icon p
                = toUpperCase runtime (firstCharacters 2 (name p))).
    { rewrite getShortName_shortNameSpec. unfold shortNameSpec.
      rewrite Hd, Ht. destruct (shortName p) as [[|c s]|]; try reflexivity.
      discriminate Hs. }
    split; [exact E|]. split.
    + intros Hlen. rewrite E, firstCharacters_all by lia. reflexivity.
    + intros Ha. rewrite E, (toUpperCase_ascii runtime _ Ha). split.
      * unfold JS.asciiUpper.
        rewrite length_map, <- firstn_firstCharacters, length_firstn.
        reflexivity.
      * intros i u Hu Hi. apply asciiUpper_nth.
        rewrite <- firstn_firstCharacters, nth_error_firstn.
        destruct (Nat.ltb_spec i 2); [exact Hu | lia].
  - intros a i n t. reflexivity.
  - intros a i. unfold getShortName. cbn [isDefault shortName JS.truthy
      isTransient name]. now rewrite (substring_first 2), toUpperCase_ascii.
  - intros a i. unfold getShortName. cbn [isDefault shortName JS.truthy
      isTransient name]. now rewrite (substring_first 2), toUpperCase_ascii.
Qed.

Lemma getShortName_precedence_witness :
  getShortName Sample.asciiOnly Sample.icon Sample.defaultProfile
  = js "$(defaultProfile-icon)" /\
  getShortName Sample.asciiOnly Sample.icon Sample.workRenamed = js "AB" /\
  getShortName Sample.asciiOnly Sample.icon Sample.temp = js "T1" /\
  getShortName Sample.asciiOnly Sample.icon Sample.work = js "AL" /\
  getShortName Sample.asciiOnly Sample.icon Sample.single = js "X" /\
  nth_error (getShortName Sample.asciiOnly Sample.icon Sample.work) 1
  = Some 76%N.
Proof.
  split; [|split; [|split; [|split; [|split]]]].
  - apply (proj1 (getShortName_precedence Sample.asciiOnly Sample.icon
                    Sample.defaultProfile)).
    reflexivity.
  - apply (proj1 (proj2
      (getShortName_precedence Sample.asciiOnly Sample.icon Sample.workRenamed)));
      [reflexivity | reflexivity | discriminate].
  - exact (proj2 (proj1 (proj2 (proj2
      (getShortName_precedence Sample.asciiOnly Sample.icon Sample.temp)))
      eq_refl eq_refl eq_refl)).
  - exact (proj1 (proj1 (proj2 (proj2 (proj2
      (getShortName_precedence Sample.asciiOnly Sample.icon Sample.work))))
      eq_refl eq_refl eq_refl)).
  - apply (proj1 (proj2 (proj1 (proj2 (proj2 (proj2
      (getShortName_precedence Sample.asciiOnly Sample.icon Sample.single))))
      eq_refl eq_refl eq_refl))). simpl. lia.
  - exact (proj2 (proj2 (proj2 (proj1 (proj2 (proj2 (proj2
      (getShortName_precedence Sample.asciiOnly Sample.icon Sample.work))))
      eq_refl eq_refl eq_refl)) eq_refl) 1 108%N eq_refl
      (le_n 2)).
Defined.

(** C6, as amended.  For a profile that is not default, has no non-empty
    [shortName] and is transient, [getShortName] returns ["T"] followed by
    the last character of [name]: two characters when the name is not
    empty, the last of which is the character at the last position of the
    name, and ["T"] alone when the name is empty.  The function is total. *)
Theorem getShortName_transient (runtime : CaseMapping) (icon : ThemeIcon.t)
    (p : IUserDataProfile) :
  isDefault p = false -> JS.truthy (shortName p) = false ->
  isTransient p = true ->
  getShortName runtime icon p = js "T" ++ lastCharacter (name p) /\
  (name p <> [] ->
   exists c,
     nth_error (name p) (List.length (name p) - 1) = Some c /\
     getShortName runtime icon p = js "T" ++ [c]) /\
  (name p = [] -> getShortName runtime icon p = js "T").
Proof.
  intros Hd Hs Ht.
  assert (E : getShortName runtime icon p = js "T" ++ lastCharacter (name p)).
  { rewrite getShortName_shortNameSpec. unfold shortNameSpec.
    rewrite Hd, Ht. destruct (shortName p) as [[|c s]|]; try reflexivity.
    discriminate Hs. }
  split; [exact E|]. rewrite E. split.
  - destruct (name p) as [|c0 s]; [intros H; now contradiction H|]. intros _.
    destruct (get_last s c0) as [x [Hg Hl]]. exists x.
    cbn [List.length]. rewrite Nat.sub_1_r. cbn [Nat.pred].
    rewrite Hg, Hl. split; reflexivity.
  - intros ->. reflexivity.
Qed.

Lemma getShortName_transient_witness :
  getShortName Sample.asciiOnly Sample.icon Sample.temp = js "T1".
Proof.
  apply (proj1 (getShortName_transient Sample.asciiOnly Sample.icon Sample.temp
                  eq_refl eq_refl eq_refl)).
Defined.

(** The token of a transient profile without a name has one character,
    so C6 as it is worded fails there. *)
Lemma getShortName_transient_not_two_characters :
  isDefault Sample.unnamed = false /\
  JS.truthy (shortName Sample.unnamed) = false /\
  isTransient Sample.unnamed = true /\
  getShortName Sample.asciiOnly Sample.icon Sample.unnamed = js "T" /\
  List.length (getShortName Sample.asciiOnly Sample.icon Sample.unnamed) <> 2.
Proof. repeat split. differ. Qed.

(** C9. For a profile that is not default, has no non-empty [shortName],
    is transient and has the empty name, [getShortName] returns the
    one-character string ["T"]. *)
Theorem getShortName_transient_empty_name (runtime : CaseMapping)
    (icon : ThemeIcon.t) (p : IUserDataProfile) :
  isDefault p = false -> JS.truthy (shortName p) = false ->
  isTransient p = true -> name p = [] ->
  getShortName runtime icon p = js "T" /\
  List.length (getShortName runtime icon p) = 1.
Proof.
  intros Hd Hs Ht Hn. unfold getShortName. rewrite Hd, Hs, Ht, Hn.
  split; reflexivity.
Qed.

Lemma getShortName_transient_empty_name_witness :
  getShortName Sample.asciiOnly Sample.icon Sample.unnamed = js "T" /\
  List.length (getShortName Sample.asciiOnly Sample.icon Sample.unnamed) = 1.
Proof.
  apply (getShortName_transient_empty_name Sample.asciiOnly Sample.icon
           Sample.unnamed); reflexivity.
Defined.

(** ** Switching the current profile *)

(** C2. A switch to a profile whose id is the current id succeeds at once,
    whatever [preserveData] is: the promise is already fulfilled, no
    listener is invoked, nothing is joined, and the service, with the very
    profile object it held, is left as it was. *)
Theorem updateCurrentProfile_same_id_is_noop (this : UserDataProfileService)
    (target : IUserDataProfile) (preserveData : bool) (now : nat) :
  id (currentProfile this) = id target ->
  let r := updateCurrentProfile target preserveData now this in
  result r = SettlesAt now Fulfilled /\
  stateAt (result r) now = Some Fulfilled /\
  steps r = [] /\
  after r = this /\
  currentProfile (after r) = currentProfile this.
Proof.
  intros H r. subst r. rewrite (updateCurrentProfile_same _ _ _ _ H).
  unfold result, steps, after; simpl. rewrite Nat.leb_refl. auto.
Qed.

Lemma updateCurrentProfile_same_id_is_noop_witness :
  id (currentProfile Sample.atWork) = id Sample.workRenamed /\
  after (updateCurrentProfile Sample.workRenamed true 2 Sample.atWork)
  = Sample.atWork /\
  addr (currentProfile
          (after (updateCurrentProfile Sample.workRenamed true 2 Sample.atWork)))
  = addr Sample.work.
Proof.
  assert (H : id (currentProfile Sample.atWork) = id Sample.workRenamed)
    by reflexivity.
  destruct (updateCurrentProfile_same_id_is_noop
              Sample.atWork Sample.workRenamed true 2 H)
    as [_ [_ [_ [Ha Hc]]]].
  split; [exact H|]. split; [exact Ha|]. rewrite Hc. reflexivity.
Defined.

(** C1. A switch to a profile with another id waits for every task joined
    during the dispatch: its promise has settled by a tick exactly when
    all the joined promises have, however early one of them failed.  The
    promise is rejected exactly when, all having settled, at least one of
    them failed, and its reason is the aggregate of their failures.  The
    current profile is the target whatever the joiners do. *)
Theorem updateCurrentProfile_awaits_all_joiners
    (this : UserDataProfileService) (target : IUserDataProfile)
    (preserveData : bool) (now : nat) :
  id (currentProfile this) <> id target ->
  let r := updateCurrentProfile target preserveData now this in
  let joiners := joins (steps r) in
  (forall t,
     settledBy t (result r) <-> now <= t /\ Forall (settledBy t) joiners) /\
  (forall t reason,
     stateAt (result r) t = Some (Rejected reason) <->
     settledBy t (result r) /\
     Exists (fun j => failure j <> None) joiners /\
     reason = AggregateError (Promises.failures joiners)) /\
  (forall reason,
     In reason (Promises.failures joiners) <->
     exists j, In j joiners /\ failure j = Some reason) /\
  currentProfile (after r) = target.
Proof.
  intros H r joiners. subst joiners r.
  rewrite (updateCurrentProfile_switch _ _ _ _ H).
  unfold result, steps, after. cbn [fst snd].
  change (joins (CurrentProfileSet target :: ?x)) with (joins x).
  rewrite joins_dispatch.
  split; [|split; [|split]].
  - intros t. apply settledBy_settled.
  - intros t reason. rewrite rejected_settled, failures_nonempty. reflexivity.
  - intros reason. apply In_failures.
  - reflexivity.
Qed.

Lemma updateCurrentProfile_awaits_all_joiners_witness :
  id (currentProfile Sample.service) <> id Sample.work /\
  (settledBy 8 (result (updateCurrentProfile Sample.work false 2 Sample.service))
   -> False) /\
  stateAt (result (updateCurrentProfile Sample.work false 2 Sample.service)) 9
  = Some (Rejected (AggregateError [Err (js "work"); Err (js "flush")])) /\
  currentProfile (after (updateCurrentProfile Sample.work false 2 Sample.service))
  = Sample.work.
Proof.
  assert (H : id (currentProfile Sample.service) <> id Sample.work) by differ.
  destruct (updateCurrentProfile_awaits_all_joiners
              Sample.service Sample.work false 2 H) as [Hw [Hr [_ Hc]]].
  split; [exact H|]. split; [|split; [|exact Hc]].
  - intros Hs. apply Hw in Hs as [_ Hs]. vm_compute in Hs.
    inversion Hs as [|? ? _ Hs']. inversion Hs' as [|? ? Hp _]. now apply Hp.
  - apply Hr. split; [|split].
    + apply Hw. split; [lia|]. vm_compute.
      repeat constructor; discriminate.
    + vm_compute. apply Exists_cons_hd. discriminate.
    + reflexivity.
Defined.

(** C3. In a switch to a profile with another id the assignment of the
    target to the current profile is the first step: every listener
    invocation, every read of the current profile by a listener and every
    call of [join] comes after it, no other assignment follows, every such
    read yields the target, and the service holds the target when the
    call hands its promise back, settled or not. *)
Theorem updateCurrentProfile_commits_first
    (this : UserDataProfileService) (target : IUserDataProfile)
    (preserveData : bool) (now : nat) :
  id (currentProfile this) <> id target ->
  let r := updateCurrentProfile target preserveData now this in
  exists rest,
    steps r = CurrentProfileSet target :: rest /\
    forallb listenerStep rest = true /\
    sets rest = [] /\
    Forall (fun p => p = target) (reads rest) /\
    joins (steps r) = joins rest /\
    currentProfile (after r) = target.
Proof.
  intros H r. subst r. rewrite (updateCurrentProfile_switch _ _ _ _ H).
  unfold steps, after. cbn [fst snd].
  eexists. split; [reflexivity|].
  assert (HL : forallb listenerStep
                 (dispatch JoinCalled ChangeListenerInvoked target
                    {| preserveData := preserveData;
                       previous := currentProfile this; profile := target |}
                    (enumerate 0 (_onDidChangeCurrentProfile this))) = true)
    by (apply steps_dispatch_listenerStep; reflexivity).
  split; [exact HL|]. split; [apply sets_dispatch, HL|].
  split; [apply reads_dispatch; reflexivity|]. split; reflexivity.
Qed.

Lemma updateCurrentProfile_commits_first_witness :
  id (currentProfile Sample.service) <> id Sample.work /\
  (exists rest,
     steps (updateCurrentProfile Sample.work false 2 Sample.service)
     = CurrentProfileSet Sample.work :: rest /\
     Forall (fun p => p = Sample.work) (reads rest)) /\
  currentProfile (after (updateCurrentProfile Sample.work false 2 Sample.service))
  = Sample.work /\
  stateAt (result (updateCurrentProfile Sample.work false 2 Sample.service)) 2
  = None.
Proof.
  assert (H : id (currentProfile Sample.service) <> id Sample.work) by differ.
  destruct (updateCurrentProfile_commits_first
              Sample.service Sample.work false 2 H)
    as [rest [Hs [_ [_ [Hr [_ Hc]]]]]].
  split; [exact H|]. split; [exists rest; split; assumption|].
  split; [exact Hc | reflexivity].
Defined.

(** C7. In a switch to a profile with another id, on a service whose
    change listeners were registered one after the other, the steps after
    the assignment are the runs of the registered listeners in the order
    of their registration: every listener is invoked once, and all of them
    with the same event, made of the profile that was current, the target
    and the flag. *)
Theorem updateCurrentProfile_invokes_listeners_in_order
    (this0 : UserDataProfileService)
    (ls : list (Listener DidChangeUserDataProfileEvent Promise))
    (target : IUserDataProfile) (preserveData : bool) (now : nat) :
  let this := registerAll ls this0 in
  id (currentProfile this) <> id target ->
  let e := {| preserveData := preserveData; previous := currentProfile this0;
              profile := target |} in
  let registry := _onDidChangeCurrentProfile this0 ++ ls in
  let r := updateCurrentProfile target preserveData now this in
  _onDidChangeCurrentProfile this = registry /\
  steps r =
    CurrentProfileSet target ::
      dispatch JoinCalled ChangeListenerInvoked target e (enumerate 0 registry)
  /\
  changeInvocations (steps r)
  = map (fun i => (i, e)) (seq 0 (List.length registry)).
Proof.
  intros this H e registry r. subst r registry e.
  destruct (registerAll_state ls this0) as [Hr [_ Hc]]. fold this in Hr, Hc.
  rewrite (updateCurrentProfile_switch _ _ _ _ H).
  unfold steps, currentProfile. cbn [fst snd]. rewrite Hr, Hc.
  split; [reflexivity|]. split; [reflexivity|].
  change (changeInvocations (CurrentProfileSet target :: ?x))
    with (changeInvocations x).
  apply changeInvocations_dispatch.
Qed.

Lemma updateCurrentProfile_invokes_listeners_in_order_witness :
  let this :=
    registerAll [Sample.L1; Sample.L2; Sample.L3]
      (constructor Sample.defaultProfile) in
  let e := {| preserveData := true; previous := Sample.defaultProfile;
              profile := Sample.work |} in
  id (currentProfile this) <> id Sample.work /\
  changeInvocations (steps (updateCurrentProfile Sample.work true 2 this))
  = [(0, e); (1, e); (2, e)].
Proof.
  intros this e.
  assert (H : id (currentProfile this) <> id Sample.work) by differ.
  split; [exact H|].
  exact (proj2 (proj2 (updateCurrentProfile_invokes_listeners_in_order
                         (constructor Sample.defaultProfile)
                         [Sample.L1; Sample.L2; Sample.L3]
                         Sample.work true 2 H))).
Defined.

(** C8. Two switches to the same target from the same service that differ
    only in [preserveData] leave the service in the same state, make the
    same assignments and invoke the same listeners.  The flag does not
    decide what the service does: in both runs the promise waits for what
    was joined; when the ids differ the target is assigned and every
    registered listener is invoked, in order, with the event made of the
    flag as it was passed, the profile that was current and the target.
    The flag reaches the listeners and nothing else: when no listener
    acts on it, the two runs hand back the same promise and take the same
    steps, up to the flag inside the delivered events. *)
Theorem preserveData_is_passed_through
    (this : UserDataProfileService) (target : IUserDataProfile) (now : nat) :
  let r := fun flag => updateCurrentProfile target flag now this in
  let event := fun flag =>
    {| preserveData := flag; previous := currentProfile this;
       profile := target |} in
  let registry := _onDidChangeCurrentProfile this in
  after (r true) = after (r false) /\
  sets (steps (r true)) = sets (steps (r false)) /\
  map fst (changeInvocations (steps (r true)))
  = map fst (changeInvocations (steps (r false))) /\
  (forall flag i e,
     In (i, e) (changeInvocations (steps (r flag))) -> e = event flag) /\
  (forall flag,
     result (r flag) = Promises.settled now (joins (steps (r flag)))) /\
  (id (currentProfile this) <> id target ->
   forall flag,
     steps (r flag)
     = CurrentProfileSet target ::
         dispatch JoinCalled ChangeListenerInvoked target (event flag)
           (enumerate 0 registry) /\
     changeInvocations (steps (r flag))
     = map (fun i => (i, event flag)) (seq 0 (List.length registry)) /\
     currentProfile (after (r flag)) = target) /\
  ((forall l, In l registry -> l (event true) = l (event false)) ->
   result (r true) = result (r false) /\
   map eraseFlag (steps (r true)) = map eraseFlag (steps (r false))).
Proof.
  intros r event registry. subst r event registry. cbv beta.
  assert (A : id (currentProfile this) <> id target -> forall flag,
        changeInvocations (steps (updateCurrentProfile target flag now this))
        = map (fun i => (i, {| preserveData := flag;
                               previous := currentProfile this;
                               profile := target |}))
            (seq 0 (List.length (_onDidChangeCurrentProfile this)))).
  { intros N flag. rewrite (updateCurrentProfile_switch _ _ _ _ N).
    rewrite steps_triple.
    change (changeInvocations (CurrentProfileSet target :: ?x))
      with (changeInvocations x).
    apply changeInvocations_dispatch. }
  split; [|split; [|split; [|split; [|split; [|split]]]]].
  - destruct (updateCurrentProfile_cases this target true now) as [[E ->]|[N ->]].
    + now rewrite (updateCurrentProfile_same _ _ _ _ E).
    + now rewrite (updateCurrentProfile_switch _ _ _ _ N).
  - destruct (updateCurrentProfile_cases this target true now) as [[E ->]|[N ->]].
    + now rewrite (updateCurrentProfile_same _ _ _ _ E).
    + rewrite (updateCurrentProfile_switch _ _ _ _ N), !steps_triple.
      change (sets (CurrentProfileSet target :: ?x)) with (target :: sets x).
      rewrite !sets_dispatch; auto;
        apply steps_dispatch_listenerStep; reflexivity.
  - destruct (str_eqb_spec (id (currentProfile this)) (id target)) as [E|N].
    + now rewrite !(updateCurrentProfile_same _ _ _ _ E).
    + rewrite !(A N), !map_map. reflexivity.
  - intros flag i e Hin.
    destruct (str_eqb_spec (id (currentProfile this)) (id target)) as [E|N].
    + rewrite (updateCurrentProfile_same _ _ _ _ E) in Hin. destruct Hin.
    + rewrite (A N) in Hin. apply in_map_iff in Hin as [k [Hk _]]. congruence.
  - intros flag. apply result_updateCurrentProfile.
  - intros N flag. rewrite (A N flag).
    rewrite (updateCurrentProfile_switch _ _ _ _ N).
    rewrite steps_triple, after_triple. repeat split.
  - intros Hl.
    destruct (str_eqb_spec (id (currentProfile this)) (id target)) as [E|N].
    + rewrite !(updateCurrentProfile_same _ _ _ _ E). split; reflexivity.
    + rewrite !(updateCurrentProfile_switch _ _ _ _ N).
      unfold result. rewrite !steps_triple. cbn [fst snd map]. split.
      * f_equal. apply flat_map_agree. intros l Hin. now rewrite (Hl l Hin).
      * f_equal. now apply eraseFlag_dispatch.
Qed.

Lemma preserveData_is_passed_through_witness :
  let e := fun flag =>
    {| preserveData := flag; previous := Sample.defaultProfile;
       profile := Sample.work |} in
  let plain := registerAll [Sample.L1; Sample.L3]
                 (constructor Sample.defaultProfile) in
  id (currentProfile Sample.service) <> id Sample.work /\
  changeInvocations (steps (updateCurrentProfile Sample.work true 2 Sample.service))
  = [(0, e true); (1, e true); (2, e true)] /\
  changeInvocations (steps (updateCurrentProfile Sample.work false 2 Sample.service))
  = [(0, e false); (1, e false); (2, e false)] /\
  (forall l, In l (_onDidChangeCurrentProfile plain) -> l (e true) = l (e false))
  /\
  result (updateCurrentProfile Sample.work true 2 plain)
  = result (updateCurrentProfile Sample.work false 2 plain).
Proof.
  intros e plain.
  assert (H : id (currentProfile Sample.service) <> id Sample.work) by differ.
  assert (P : forall l, In l (_onDidChangeCurrentProfile plain) ->
                        l (e true) = l (e false))
    by (intros l [<-|[<-|[]]]; reflexivity).
  destruct (preserveData_is_passed_through Sample.service Sample.work 2)
    as [_ [_ [_ [_ [_ [D _]]]]]].
  destruct (preserveData_is_passed_through plain Sample.work 2)
    as [_ [_ [_ [_ [_ [_ I]]]]]].
  split; [exact H|].
  split; [exact (proj1 (proj2 (D H true)))|].
  split; [exact (proj1 (proj2 (D H false)))|].
  split; [exact P | exact (proj1 (I P))].
Defined.

(** ** Reconciliation with the catalog *)

Lemma find_current_some (this : UserDataProfileService)
    (l : list IUserDataProfile) (p : IUserDataProfile) :
  In p l -> id p = id (currentProfile this) ->
  exists q,
    find (fun q => JS.eqb (id (currentProfile this)) (id q)) l = Some q.
Proof.
  intros Hin Hid.
  destruct (find (fun q => JS.eqb (id (currentProfile this)) (id q)) l)
    as [q|] eqn:E; [now exists q|].
  apply (find_none _ _ E) in Hin. apply str_eqb_neq in Hin. congruence.
Qed.

Lemma find_current_none (this : UserDataProfileService)
    (l : list IUserDataProfile) :
  (forall p, In p l -> id p <> id (currentProfile this)) ->
  find (fun q => JS.eqb (id (currentProfile this)) (id q)) l = None.
Proof.
  intros H.
  destruct (find (fun q => JS.eqb (id (currentProfile this)) (id q)) l)
    as [q|] eqn:E; [|reflexivity].
  apply find_some in E as [Hin Hq]. apply str_eqb_eq in Hq.
  now contradiction (H q Hin).
Qed.

(** What the callback does when some updated entry has the current id. *)
Lemma onDidChangeProfiles_found_first
    (this : UserDataProfileService) (e : DidChangeProfilesEvent) :
  let r := onDidChangeProfiles e this in
  (exists p, In p (updated e) /\ id p = id (currentProfile this)) ->
  exists pre p post,
    updated e = pre ++ p :: post /\
    id p = id (currentProfile this) /\
    (forall q, In q pre -> id q <> id (currentProfile this)) /\
    after r = withCurrentProfile this p /\
    sets (steps r) = [p] /\
    updateInvocations (steps r)
    = seq 0 (List.length (_onDidUpdateCurrentProfile this)) /\
    changeInvocations (steps r) = [] /\
    joins (steps r) = [].
Proof.
  intros r [p [Hin Hid]]. subst r.
  destruct (find_current_some this _ p Hin Hid) as [q Hq].
  destruct (find_first _ _ _ Hq) as [pre [post [Hl [Hm Hpre]]]].
  exists pre, q, post. rewrite (onDidChangeProfiles_found _ _ _ Hq).
  unfold after, steps. cbn [fst snd].
  destruct (updateDispatch_plain q (_onDidUpdateCurrentProfile this) 0)
    as [U1 [U2 U3]].
  apply str_eqb_eq in Hm.
  split; [exact Hl|]. split; [now symmetry|]. split.
  { intros b Hb. apply Hpre, str_eqb_neq in Hb. congruence. }
  split; [reflexivity|]. split.
  { change (sets (CurrentProfileSet q :: ?x)) with (q :: sets x).
    rewrite sets_dispatch; [reflexivity|].
    apply steps_dispatch_listenerStep; [intros []|reflexivity]. }
  split; [exact U1|]. split; [exact U2 | exact U3].
Qed.

(** C4. On a change batch of the catalog: when some updated entry has the
    current id, the current profile becomes the first such entry of the
    list, nothing else of the service changes, every update listener is
    invoked once, without payload, and no change listener is invoked and
    nothing is joined; when no updated entry has the current id, the
    service is left as it was and no listener is invoked. *)
Theorem onDidChangeProfiles_takes_first_match
    (this : UserDataProfileService) (e : DidChangeProfilesEvent) :
  let r := onDidChangeProfiles e this in
  ((exists p, In p (updated e) /\ id p = id (currentProfile this)) ->
   exists pre p post,
     updated e = pre ++ p :: post /\
     id p = id (currentProfile this) /\
     (forall q, In q pre -> id q <> id (currentProfile this)) /\
     after r = withCurrentProfile this p /\
     sets (steps r) = [p] /\
     updateInvocations (steps r)
     = seq 0 (List.length (_onDidUpdateCurrentProfile this)) /\
     changeInvocations (steps r) = [] /\
     joins (steps r) = []) /\
  ((forall p, In p (updated e) -> id p <> id (currentProfile this)) ->
   after r = this /\ steps r = []).
Proof.
  intros r. subst r. split.
  - apply onDidChangeProfiles_found_first.
  - intros H. rewrite (onDidChangeProfiles_not_found _ _ (find_current_none _ _ H)).
    split; reflexivity.
Qed.

Lemma onDidChangeProfiles_takes_first_match_witness :
  let e := Sample.batch [Sample.temp; Sample.workRenamed; Sample.workCopy] in
  (exists p, In p (updated e) /\ id p = id (currentProfile Sample.atWork)) /\
  currentProfile (after (onDidChangeProfiles e Sample.atWork))
  = Sample.workRenamed /\
  updateInvocations (steps (onDidChangeProfiles e Sample.atWork)) = [0; 1] /\
  changeInvocations (steps (onDidChangeProfiles e Sample.atWork)) = [] /\
  (forall p, In p (updated e) -> id p <> id (currentProfile Sample.service)) /\
  after (onDidChangeProfiles e Sample.service) = Sample.service /\
  steps (onDidChangeProfiles e Sample.service) = [].
Proof.
  intros e.
  assert (H1 : exists p,
             In p (updated e) /\ id p = id (currentProfile Sample.atWork))
    by (exists Sample.workRenamed; split; [simpl; auto | reflexivity]).
  assert (H2 : forall p,
             In p (updated e) -> id p <> id (currentProfile Sample.service))
    by (intros p [<-|[<-|[<-|[]]]]; differ).
  destruct (proj1 (onDidChangeProfiles_takes_first_match Sample.atWork e) H1)
    as [pre [p [post [Hl [Hid [Hpre [Ha [_ [Hu [Hc _]]]]]]]]]].
  destruct (proj2 (onDidChangeProfiles_takes_first_match Sample.service e) H2)
    as [Hs Hn].
  split; [exact H1|]. split.
  { rewrite Ha. cbn [withCurrentProfile currentProfile _currentProfile].
    destruct pre as [|x [|y pre]].
    - injection Hl as Hp _. subst p. discriminate Hid.
    - injection Hl as _ Hp _. now subst p.
    - injection Hl as _ Hy _. subst y.
      now contradiction (Hpre Sample.workRenamed (or_intror (or_introl eq_refl))). }
  split; [exact Hu|]. split; [exact Hc|]. split; [exact H2|].
  split; [exact Hs | exact Hn].
Defined.

(** C10. Reconciliation looks at ids only.  When an updated entry has the
    current id, the current profile is replaced by the first such entry
    and every update listener is invoked once, also when that entry has
    exactly the attributes of the current profile; and two batches whose
    updated lists carry the same ids in the same order lead to the same
    invocations of listeners, whatever the other attributes are. *)
Theorem onDidChangeProfiles_compares_ids_only
    (this : UserDataProfileService) (e : DidChangeProfilesEvent)
    (p : IUserDataProfile) :
  In p (updated e) -> id p = id (currentProfile this) ->
  let r := onDidChangeProfiles e this in
  (exists q,
     In q (updated e) /\ id q = id (currentProfile this) /\
     currentProfile (after r) = q /\
     sets (steps r) = [q]) /\
  updateInvocations (steps r)
  = seq 0 (List.length (_onDidUpdateCurrentProfile this)) /\
  (forall e',
     map id (updated e') = map id (updated e) ->
     updateInvocations (steps (onDidChangeProfiles e' this))
     = updateInvocations (steps r) /\
     List.length (sets (steps (onDidChangeProfiles e' this))) = 1).
Proof.
  intros Hin Hid r. subst r.
  destruct (onDidChangeProfiles_found_first this e
              (ex_intro _ p (conj Hin Hid)))
    as [pre [q [post [Hl [Hq [_ [Ha [Hs [Hu _]]]]]]]]].
  split; [|split].
  - exists q. assert (Hqin : In q (updated e))
      by (rewrite Hl; apply in_or_app; right; now left).
    split; [exact Hqin|]. split; [exact Hq|].
    split; [now rewrite Ha | exact Hs].
  - exact Hu.
  - intros e' Hids.
    assert (Hin' : In (id p) (map id (updated e')))
      by (rewrite Hids; now apply in_map).
    apply in_map_iff in Hin' as [p' [Hp' Hin']].
    destruct (onDidChangeProfiles_found_first this e'
                (ex_intro _ p' (conj Hin' (eq_trans Hp' Hid))))
      as [pre' [q' [post' [_ [_ [_ [_ [Hs' [Hu' _]]]]]]]]].
    rewrite Hu, Hu', Hs'. split; reflexivity.
Qed.

Lemma onDidChangeProfiles_compares_ids_only_witness :
  let e := Sample.batch [Sample.workCopy] in
  In Sample.workCopy (updated e) /\
  id Sample.workCopy = id (currentProfile Sample.atWork) /\
  sameAttributes Sample.workCopy (currentProfile Sample.atWork) /\
  addr (currentProfile Sample.atWork) = 2 /\
  (exists q,
     addr q = 4 /\
     currentProfile (after (onDidChangeProfiles e Sample.atWork)) = q) /\
  updateInvocations (steps (onDidChangeProfiles e Sample.atWork)) = [0; 1].
Proof.
  intros e.
  assert (H1 : In Sample.workCopy (updated e)) by (simpl; auto).
  assert (H2 : id Sample.workCopy = id (currentProfile Sample.atWork))
    by reflexivity.
  destruct (onDidChangeProfiles_compares_ids_only
              Sample.atWork e Sample.workCopy H1 H2)
    as [[q [Hq [_ [Hc _]]]] [Hu _]].
  split; [exact H1|]. split; [exact H2|].
  split; [repeat split|]. split; [reflexivity|].
  split; [|exact Hu].
  exists q. split; [|exact Hc].
  destruct Hq as [<-|[]]. reflexivity.
Defined.

(** ** Further lemmas *)

Lemma changeInvocations_app (l1 l2 : list Step) :
  changeInvocations (l1 ++ l2) = changeInvocations l1 ++ changeInvocations l2.
Proof. apply flat_map_app. Qed.

Lemma sets_app (l1 l2 : list Step) : sets (l1 ++ l2) = sets l1 ++ sets l2.
Proof. apply flat_map_app. Qed.

Lemma updateInvocations_app (l1 l2 : list Step) :
  updateInvocations (l1 ++ l2) = updateInvocations l1 ++ updateInvocations l2.
Proof. apply flat_map_app. Qed.

Lemma updateInvocations_changeDispatch (current : IUserDataProfile)
    (e : DidChangeUserDataProfileEvent)
    (ls : list (nat * Listener DidChangeUserDataProfileEvent Promise)) :
  updateInvocations (dispatch JoinCalled ChangeListenerInvoked current e ls) = [].
Proof.
  unfold dispatch. induction ls as [|[i l] rest IH]; simpl; [reflexivity|].
  rewrite updateInvocations_app, IH, app_nil_r.
  generalize (l e). intros script.
  induction script as [|k IHk|c k IHk]; simpl; auto.
Qed.

Lemma changeInvocations_updateCurrentProfile (this : UserDataProfileService)
    (target : IUserDataProfile) (pd : bool) (now : nat) (i : nat)
    (e : DidChangeUserDataProfileEvent) :
  In (i, e) (changeInvocations (steps (updateCurrentProfile target pd now this)))
  -> id (currentProfile this) <> id target /\
     e = {| preserveData := pd; previous := currentProfile this;
            profile := target |}.
Proof.
  destruct (updateCurrentProfile_cases this target pd now) as [[E ->]|[N ->]];
    unfold steps; cbn [snd].
  - intros [].
  - change (changeInvocations (CurrentProfileSet target :: ?x))
      with (changeInvocations x).
    rewrite changeInvocations_dispatch. intros Hin.
    apply in_map_iff in Hin as [k [Hk _]]. split; [exact N | congruence].
Qed.

Lemma allSettled_Never (ps : list Promise) :
  In Never ps -> forall now, Promises.allSettled now ps = None.
Proof.
  induction ps as [|p rest IH]; intros Hin now; [destruct Hin|].
  destruct p as [|t s]; simpl; [reflexivity|].
  destruct Hin as [Hp|Hin]; [discriminate Hp | now apply IH].
Qed.

(** The two ways the catalog callback can go. *)
Lemma onDidChangeProfiles_cases (this : UserDataProfileService)
    (e : DidChangeProfilesEvent) :
  onDidChangeProfiles e this = (tt, this, []) \/
  exists p,
    In p (updated e) /\ id p = id (currentProfile this) /\
    onDidChangeProfiles e this =
    (tt, withCurrentProfile this p,
     CurrentProfileSet p ::
       dispatch (fun c : Empty_set => match c with end)
         (fun k _ => UpdateListenerInvoked k) p tt
         (enumerate 0 (_onDidUpdateCurrentProfile this))).
Proof.
  destruct (find (fun q => JS.eqb (id (currentProfile this)) (id q))
              (updated e)) as [p|] eqn:E.
  - right. exists p. destruct (find_some _ _ E) as [Hin Hid].
    apply str_eqb_eq in Hid.
    split; [exact Hin|]. split; [now symmetry|].
    now apply onDidChangeProfiles_found.
  - left. now apply onDidChangeProfiles_not_found.
Qed.

Lemma updateDispatch_listenerStep (current : IUserDataProfile)
    (ls : list (nat * Listener unit Empty_set)) :
  forallb listenerStep
    (dispatch (fun c : Empty_set => match c with end)
       (fun k _ => UpdateListenerInvoked k) current tt ls) = true.
Proof. apply steps_dispatch_listenerStep; [intros []|reflexivity]. Qed.

Lemma find_prefix {A} (f : A -> bool) (pre post : list A) (a : A) :
  (forall b, In b pre -> f b = false) -> f a = true ->
  find f (pre ++ a :: post) = Some a.
Proof.
  intros Hpre Ha. induction pre as [|x pre IH]; simpl.
  - now rewrite Ha.
  - rewrite (Hpre x (or_introl eq_refl)). apply IH.
    intros b Hb. apply Hpre. now right.
Qed.

Lemma perform_Switch (this : UserDataProfileService)
    (target : IUserDataProfile) (pd : bool) (now : nat) :
  perform (Switch target pd now) this =
  (tt, after (updateCurrentProfile target pd now this),
   steps (updateCurrentProfile target pd now this)).
Proof.
  unfold perform, bind, ret, after, steps.
  destruct (updateCurrentProfile target pd now this) as [[a s] l]. simpl.
  now rewrite app_nil_r.
Qed.

Lemma performAll_cons (op : Op) (rest : list Op) (this : UserDataProfileService) :
  performAll (op :: rest) this =
  (tt, after (performAll rest (after (perform op this))),
   steps (perform op this) ++ steps (performAll rest (after (perform op this)))).
Proof.
  cbn [performAll]. unfold bind, after, steps.
  destruct (perform op this) as [[a s] l]. cbn [fst snd].
  destruct (performAll rest s) as [[[] s'] l']. reflexivity.
Qed.

(** One operation: where the current profile comes from, what its id is,
    what becomes of the registries and which events are delivered. *)
Lemma perform_facts (op : Op) (this : UserDataProfileService) :
  let r := perform op this in
  In (currentProfile (after r)) (currentProfile this :: offered [op]) /\
  Forall (fun p => In p (offered [op])) (sets (steps r)) /\
  id (currentProfile (after r)) = lastSwitchId (id (currentProfile this)) [op] /\
  _onDidChangeCurrentProfile (after r)
  = _onDidChangeCurrentProfile this ++ changeSubscriptions [op] /\
  _onDidUpdateCurrentProfile (after r)
  = _onDidUpdateCurrentProfile this ++ updateSubscriptions [op] /\
  (forall i e, In (i, e) (changeInvocations (steps r)) ->
               id (previous e) <> id (profile e)).
Proof.
  intros r. subst r. destruct op as [target pd now|e|l|l].
  - rewrite perform_Switch.
    assert (HE : forall i e,
               In (i, e) (changeInvocations
                            (steps (updateCurrentProfile target pd now this))) ->
               id (previous e) <> id (profile e)).
    { intros i e Hin.
      apply changeInvocations_updateCurrentProfile in Hin as [N ->]. exact N. }
    revert HE.
    destruct (updateCurrentProfile_cases this target pd now) as [[E ->]|[N ->]];
      unfold after, steps; cbn [fst snd offered lastSwitchId
                                changeSubscriptions updateSubscriptions];
      intros HE; rewrite ?app_nil_r.
    + repeat split; auto; now left.
    + repeat split; auto.
      * right. now left.
      * change (sets (CurrentProfileSet target :: ?x)) with (target :: sets x).
        rewrite sets_dispatch
          by (apply steps_dispatch_listenerStep; reflexivity).
        constructor; [now left | constructor].
  - cbn [perform offered lastSwitchId changeSubscriptions updateSubscriptions].
    rewrite !app_nil_r.
    destruct (onDidChangeProfiles_cases this e) as [->|[p [Hin [Hid ->]]]];
      unfold after, steps; cbn [fst snd].
    + repeat split; auto; try (now left); try (intros i e' []).
    + repeat split; auto.
      * right. exact Hin.
      * change (sets (CurrentProfileSet p :: ?x)) with (p :: sets x).
        rewrite sets_dispatch by apply updateDispatch_listenerStep.
        constructor; [exact Hin | constructor].
      * intros i e'.
        change (changeInvocations (CurrentProfileSet p :: ?x))
          with (changeInvocations x).
        destruct (updateDispatch_plain p (_onDidUpdateCurrentProfile this) 0)
          as [_ [-> _]]. intros [].
  - cbn. repeat split; auto; try (now rewrite app_nil_r); try (intros i e []).
  - cbn. repeat split; auto; try (now rewrite app_nil_r); try (intros i e []).
Qed.

Lemma lastCharacter_append (s : JS.str) (c : N) :
  lastCharacter (s ++ [c]) = [c].
Proof.
  induction s as [|d s IH]; [reflexivity|].
  cbn [app]. destruct s as [|d' s]; [reflexivity|].
  exact IH.
Qed.

Lemma firstCharacters_append (u v : JS.str) :
  firstCharacters (List.length u) (u ++ v) = u.
Proof.
  induction u as [|c u IH]; simpl.
  - reflexivity.
  - now rewrite IH.
Qed.

Lemma offered_cons (op : Op) (rest : list Op) :
  offered (op :: rest) = offered [op] ++ offered rest.
Proof. destruct op; simpl; rewrite ?app_nil_r; reflexivity. Qed.

Lemma lastSwitchId_cons (start : JS.str) (op : Op) (rest : list Op) :
  lastSwitchId start (op :: rest) = lastSwitchId (lastSwitchId start [op]) rest.
Proof. destruct op; reflexivity. Qed.

Lemma changeSubscriptions_cons (op : Op) (rest : list Op) :
  changeSubscriptions (op :: rest)
  = changeSubscriptions [op] ++ changeSubscriptions rest.
Proof. destruct op; reflexivity. Qed.

Lemma updateSubscriptions_cons (op : Op) (rest : list Op) :
  updateSubscriptions (op :: rest)
  = updateSubscriptions [op] ++ updateSubscriptions rest.
Proof. destruct op; reflexivity. Qed.

(** A sequence of operations: the facts of [perform_facts], accumulated. *)
Lemma performAll_facts (ops : list Op) :
  forall this,
    let r := performAll ops this in
    In (currentProfile (after r)) (currentProfile this :: offered ops) /\
    Forall (fun p => In p (offered ops)) (sets (steps r)) /\
    id (currentProfile (after r)) = lastSwitchId (id (currentProfile this)) ops /\
    _onDidChangeCurrentProfile (after r)
    = _onDidChangeCurrentProfile this ++ changeSubscriptions ops /\
    _onDidUpdateCurrentProfile (after r)
    = _onDidUpdateCurrentProfile this ++ updateSubscriptions ops /\
    (forall i e, In (i, e) (changeInvocations (steps r)) ->
                 id (previous e) <> id (profile e)).
Proof.
  induction ops as [|op rest IH]; intros this r; subst r.
  - cbn. rewrite !app_nil_r. repeat split; auto; try (intros i e []).
  - rewrite performAll_cons, !after_triple, !steps_triple.
    destruct (perform_facts op this) as [P1 [P2 [P3 [P4 [P5 P6]]]]].
    destruct (IH (after (perform op this))) as [Q1 [Q2 [Q3 [Q4 [Q5 Q6]]]]].
    rewrite offered_cons, lastSwitchId_cons, changeSubscriptions_cons,
      updateSubscriptions_cons.
    split; [|split; [|split; [|split; [|split]]]].
    + destruct Q1 as [Q1|Q1].
      * rewrite <- Q1. destruct P1 as [P1|P1]; [now left|].
        right. apply in_or_app. now left.
      * right. apply in_or_app. now right.
    + rewrite sets_app. apply Forall_app. split.
      * eapply Forall_impl; [|exact P2]. intros p Hp. apply in_or_app. now left.
      * eapply Forall_impl; [|exact Q2]. intros p Hp. apply in_or_app. now right.
    + now rewrite Q3, P3.
    + now rewrite Q4, P4, app_assoc.
    + now rewrite Q5, P5, app_assoc.
    + intros i e. rewrite changeInvocations_app. intros Hin.
      apply in_app_or in Hin as [Hin|Hin]; [eapply P6 | eapply Q6]; exact Hin.
Qed.

(** ** More on the short name *)

(** X1. The short name is the empty string exactly for a profile that is
    not default, has no non-empty [shortName], is not transient and has
    the empty name. *)
Theorem getShortName_empty_iff (runtime : CaseMapping) (icon : ThemeIcon.t)
    (p : IUserDataProfile) :
  getShortName runtime icon p = [] <->
  isDefault p = false /\ JS.truthy (shortName p) = false /\
  isTransient p = false /\ name p = [].
Proof.
  assert (U : forall n : JS.str,
             toUpperCase runtime (firstCharacters 2 n) = [] -> n = []).
  { intros n H. apply toUpperCase_nonempty in H.
    destruct n as [|a [|b n]]; [reflexivity | discriminate H | discriminate H]. }
  rewrite getShortName_shortNameSpec. unfold shortNameSpec. split.
  - destruct (isDefault p); [discriminate|].
    destruct (shortName p) as [[|c s]|]; try discriminate;
      (destruct (isTransient p); [discriminate|]); intros H;
      apply U in H; auto.
  - intros [-> [Hs [-> ->]]].
    destruct (shortName p) as [[|c s]|]; try discriminate Hs;
      now rewrite toUpperCase_ascii.
Qed.

(** X2. Without a [shortName], the short name depends on the name only
    through its last character for a transient profile, and only through
    its first two characters otherwise: names that agree there get the
    same short name. *)
Theorem getShortName_collisions (runtime : CaseMapping) (icon : ThemeIcon.t)
    (p q : IUserDataProfile) :
  isDefault p = false -> JS.truthy (shortName p) = false ->
  isDefault q = false -> JS.truthy (shortName q) = false ->
  isTransient p = isTransient q ->
  (forall s s' c,
     isTransient p = true ->
     name p = s ++ [c] -> name q = s' ++ [c] ->
     getShortName runtime icon p = js "T" ++ [c] /\
     getShortName runtime icon q = getShortName runtime icon p) /\
  (forall u v v',
     isTransient p = false -> List.length u = 2 ->
     name p = u ++ v -> name q = u ++ v' ->
     getShortName runtime icon p = toUpperCase runtime u /\
     getShortName runtime icon q = getShortName runtime icon p).
Proof.
  intros Hdp Hsp Hdq Hsq Ht.
  assert (F : forall r, isDefault r = false -> JS.truthy (shortName r) = false ->
              getShortName runtime icon r =
              if isTransient r then js "T" ++ lastCharacter (name r)
              else toUpperCase runtime (firstCharacters 2 (name r))).
  { intros r Hd Hs. rewrite getShortName_shortNameSpec. unfold shortNameSpec.
    rewrite Hd. destruct (shortName r) as [[|c s]|]; try reflexivity.
    discriminate Hs. }
  rewrite (F p Hdp Hsp), (F q Hdq Hsq), <- Ht. split.
  - intros s s' c -> -> ->. rewrite !lastCharacter_append. split; reflexivity.
  - intros u v v' -> Hu -> ->. rewrite <- Hu, !firstCharacters_append.
    split; reflexivity.
Qed.

Lemma getShortName_collisions_witness :
  getShortName Sample.asciiOnly Sample.icon Sample.temp = js "T1" /\
  getShortName Sample.asciiOnly Sample.icon
    {| addr := 8; id := js "other"; name := js "Untitled1";
       shortName := Some (js ""); isDefault := false; isTransient := true |}
  = getShortName Sample.asciiOnly Sample.icon Sample.temp /\
  getShortName Sample.asciiOnly Sample.icon Sample.work = js "AL" /\
  getShortName Sample.asciiOnly Sample.icon
    {| addr := 9; id := js "hills"; name := js "alps"; shortName := None;
       isDefault := false; isTransient := false |}
  = getShortName Sample.asciiOnly Sample.icon Sample.work.
Proof.
  split; [|split].
  - exact (proj1 (proj1 (getShortName_collisions Sample.asciiOnly Sample.icon
                  Sample.temp
                  {| addr := 8; id := js "other"; name := js "Untitled1";
                     shortName := Some (js ""); isDefault := false;
                     isTransient := true |}
                  eq_refl eq_refl eq_refl eq_refl eq_refl)
           (js "Work") (js "Untitled") 49%N eq_refl eq_refl eq_refl)).
  - exact (proj2 (proj1 (getShortName_collisions Sample.asciiOnly Sample.icon
                  Sample.temp
                  {| addr := 8; id := js "other"; name := js "Untitled1";
                     shortName := Some (js ""); isDefault := false;
                     isTransient := true |}
                  eq_refl eq_refl eq_refl eq_refl eq_refl)
           (js "Work") (js "Untitled") 49%N eq_refl eq_refl eq_refl)).
  - exact (proj2 (getShortName_collisions Sample.asciiOnly Sample.icon
                  Sample.work
                  {| addr := 9; id := js "hills"; name := js "alps";
                     shortName := None; isDefault := false;
                     isTransient := false |}
                  eq_refl eq_refl eq_refl eq_refl eq_refl)
           (js "al") (js "pha") (js "ps") eq_refl eq_refl eq_refl eq_refl).
Defined.

(** ** More on the switch *)

(** X3. Whichever way a call of [updateCurrentProfile] goes, the current
    profile then has the id of the target, so that a further call with
    any profile of that id is a no-op: it is fulfilled at once, takes no
    step and leaves the service as it is. *)
Theorem updateCurrentProfile_twice (this : UserDataProfileService)
    (target : IUserDataProfile) (preserveData : bool) (now : nat) :
  let r := updateCurrentProfile target preserveData now this in
  id (currentProfile (after r)) = id target /\
  forall again preserveData' now',
    id again = id target ->
    updateCurrentProfile again preserveData' now' (after r)
    = (SettlesAt now' Fulfilled, after r, []).
Proof.
  intros r.
  assert (H : id (currentProfile (after r)) = id target).
  { subst r.
    destruct (updateCurrentProfile_cases this target preserveData now)
      as [[E ->]|[N ->]]; [exact E | reflexivity]. }
  split; [exact H|]. intros again pd' now' Hid.
  apply updateCurrentProfile_same. congruence.
Qed.

Lemma updateCurrentProfile_twice_witness :
  let r := updateCurrentProfile Sample.work false 2 Sample.service in
  id Sample.workRenamed = id Sample.work /\
  updateCurrentProfile Sample.workRenamed true 3 (after r)
  = (SettlesAt 3 Fulfilled, after r, []) /\
  currentProfile (after r) = Sample.work.
Proof.
  intros r. split; [reflexivity|]. split; [|reflexivity].
  apply (proj2 (updateCurrentProfile_twice Sample.service Sample.work false 2)).
  reflexivity.
Defined.

(** X4. A call of [updateCurrentProfile] during which nothing is joined,
    for want of listeners or because no listener calls [join], hands back
    a promise that is fulfilled at the tick of the call. *)
Theorem updateCurrentProfile_without_joiners (this : UserDataProfileService)
    (target : IUserDataProfile) (preserveData : bool) (now : nat) :
  let r := updateCurrentProfile target preserveData now this in
  joins (steps r) = [] ->
  result r = SettlesAt now Fulfilled /\
  (forall t, now <= t -> stateAt (result r) t = Some Fulfilled).
Proof.
  intros r H.
  assert (E : result r = SettlesAt now Fulfilled).
  { subst r. rewrite result_updateCurrentProfile, H. reflexivity. }
  split; [exact E|]. intros t Ht. rewrite E. simpl.
  destruct (Nat.leb_spec now t); [reflexivity | lia].
Qed.

Lemma updateCurrentProfile_without_joiners_witness :
  let r := updateCurrentProfile Sample.work true 2
             (registerAll [Sample.L2; Sample.L3]
                (constructor Sample.defaultProfile)) in
  joins (steps r) = [] /\
  changeInvocations (steps r) <> [] /\
  result r = SettlesAt 2 Fulfilled.
Proof.
  intros r. split; [reflexivity|]. split; [differ|].
  apply (updateCurrentProfile_without_joiners
           (registerAll [Sample.L2; Sample.L3]
              (constructor Sample.defaultProfile)) Sample.work true 2).
  reflexivity.
Defined.

(** X5. There is no timeout: when a listener joins a task that never
    finishes, the promise of the switch is pending at every tick, whatever
    the other joiners do, while the current profile is the target. *)
Theorem updateCurrentProfile_stuck_joiner (this : UserDataProfileService)
    (target : IUserDataProfile) (preserveData : bool) (now : nat) :
  let r := updateCurrentProfile target preserveData now this in
  In Never (joins (steps r)) ->
  (forall t, stateAt (result r) t = None) /\
  currentProfile (after r) = target.
Proof.
  intros r H. split.
  - intros t. subst r. rewrite result_updateCurrentProfile.
    unfold Promises.settled. now rewrite (allSettled_Never _ H).
  - subst r.
    destruct (updateCurrentProfile_cases this target preserveData now)
      as [[E Hr]|[N Hr]]; rewrite Hr in *; [destruct H | reflexivity].
Qed.

Lemma updateCurrentProfile_stuck_joiner_witness :
  let r := updateCurrentProfile Sample.temp true 2 Scenario.hanging in
  In Never (joins (steps r)) /\
  stateAt (result r) 1000 = None /\
  currentProfile (after r) = Sample.temp.
Proof.
  intros r.
  assert (H : In Never (joins (steps r)))
    by (vm_compute; right; right; now left).
  destruct (updateCurrentProfile_stuck_joiner
              Scenario.hanging Sample.temp true 2 H) as [Hp Hc].
  split; [exact H|]. split; [apply Hp | exact Hc].
Defined.

(** X6. A call of [updateCurrentProfile] never invokes an update
    listener, and makes at most one assignment, to the target. *)
Theorem updateCurrentProfile_fires_no_update (this : UserDataProfileService)
    (target : IUserDataProfile) (preserveData : bool) (now : nat) :
  let r := updateCurrentProfile target preserveData now this in
  updateInvocations (steps r) = [] /\
  (sets (steps r) = [] \/ sets (steps r) = [target]).
Proof.
  intros r. subst r.
  destruct (updateCurrentProfile_cases this target preserveData now)
    as [[E ->]|[N ->]]; unfold steps; cbn [snd].
  - split; [reflexivity | now left].
  - split.
    + change (updateInvocations (CurrentProfileSet target :: ?x))
        with (updateInvocations x).
      apply updateInvocations_changeDispatch.
    + right.
      change (sets (CurrentProfileSet target :: ?x)) with (target :: sets x).
      rewrite sets_dispatch
        by (apply steps_dispatch_listenerStep; reflexivity).
      reflexivity.
Qed.

(** ** More on the reconciliation *)

(** X7. A change batch of the catalog never changes the id of the
    current profile nor the registries of listeners. *)
Theorem onDidChangeProfiles_keeps_id (this : UserDataProfileService)
    (e : DidChangeProfilesEvent) :
  let r := onDidChangeProfiles e this in
  id (currentProfile (after r)) = id (currentProfile this) /\
  _onDidChangeCurrentProfile (after r) = _onDidChangeCurrentProfile this /\
  _onDidUpdateCurrentProfile (after r) = _onDidUpdateCurrentProfile this.
Proof.
  intros r. subst r.
  destruct (onDidChangeProfiles_cases this e) as [->|[p [_ [Hid ->]]]];
    unfold after; cbn [fst snd]; repeat split; auto.
Qed.

(** X8. Of a change batch only the first updated entry with the current
    id counts: the entries before it, the entries after it, among them
    further entries with the current id, and the added and removed parts
    of the batch make no difference to what the callback does. *)
Theorem onDidChangeProfiles_first_match_only (this : UserDataProfileService)
    (e : DidChangeProfilesEvent) (pre post : list IUserDataProfile)
    (p : IUserDataProfile) :
  updated e = pre ++ p :: post ->
  (forall q, In q pre -> id q <> id (currentProfile this)) ->
  id p = id (currentProfile this) ->
  forall added' removed',
    onDidChangeProfiles e this
    = onDidChangeProfiles
        {| added := added'; updated := [p]; removed := removed' |} this.
Proof.
  intros Hl Hpre Hid added' removed'.
  assert (Hp : JS.eqb (id (currentProfile this)) (id p) = true)
    by (apply str_eqb_eq; now symmetry).
  rewrite (onDidChangeProfiles_found this e p).
  - symmetry. apply onDidChangeProfiles_found. simpl. now rewrite Hp.
  - rewrite Hl. apply find_prefix; [|exact Hp].
    intros b Hb. apply str_eqb_neq. intros E.
    now apply (Hpre b Hb).
Qed.

Lemma onDidChangeProfiles_first_match_only_witness :
  let e := {| added := [Sample.temp];
              updated := [Sample.temp; Sample.workRenamed; Sample.workCopy];
              removed := [js "work"] |} in
  updated e = [Sample.temp] ++ Sample.workRenamed :: [Sample.workCopy] /\
  (forall q, In q [Sample.temp] -> id q <> id (currentProfile Sample.atWork)) /\
  id Sample.workRenamed = id (currentProfile Sample.atWork) /\
  onDidChangeProfiles e Sample.atWork
  = onDidChangeProfiles (Sample.batch [Sample.workRenamed]) Sample.atWork.
Proof.
  intros e.
  assert (H : forall q, In q [Sample.temp] ->
                        id q <> id (currentProfile Sample.atWork))
    by (intros q [<-|[]]; differ).
  split; [reflexivity|]. split; [exact H|]. split; [reflexivity|].
  exact (onDidChangeProfiles_first_match_only Sample.atWork e
           [Sample.temp] [Sample.workCopy] Sample.workRenamed
           eq_refl H eq_refl [] []).
Defined.

(** X9. The callback does not remember batches: when the same batch is
    delivered again, it takes the same steps again, among them the
    invocations of the update listeners, and leaves the service in the
    state the first delivery left it in. *)
Theorem onDidChangeProfiles_again (this : UserDataProfileService)
    (e : DidChangeProfilesEvent) :
  let r := onDidChangeProfiles e this in
  onDidChangeProfiles e (after r) = (tt, after r, steps r).
Proof.
  intros r. subst r.
  destruct (find (fun q => JS.eqb (id (currentProfile this)) (id q))
              (updated e)) as [p|] eqn:E.
  - rewrite (onDidChangeProfiles_found _ _ _ E).
    rewrite after_triple, steps_triple.
    destruct (find_some _ _ E) as [_ Hid]. apply str_eqb_eq in Hid.
    rewrite (onDidChangeProfiles_found (withCurrentProfile this p) e p).
    + reflexivity.
    + unfold currentProfile, withCurrentProfile. cbn [_currentProfile].
      rewrite <- Hid. exact E.
  - rewrite (onDidChangeProfiles_not_found _ _ E).
    rewrite after_triple, steps_triple.
    now apply onDidChangeProfiles_not_found.
Qed.

(** X10. When the callback replaces the current profile, the assignment
    is its first step, no other follows, and every read of the current
    profile by an update listener yields the new profile. *)
Theorem onDidChangeProfiles_listeners_see_update
    (this : UserDataProfileService) (e : DidChangeProfilesEvent) :
  let r := onDidChangeProfiles e this in
  Forall (fun p => p = currentProfile (after r)) (reads (steps r)) /\
  (steps r = [] \/
   exists rest,
     steps r = CurrentProfileSet (currentProfile (after r)) :: rest /\
     forallb listenerStep rest = true).
Proof.
  intros r. subst r.
  destruct (onDidChangeProfiles_cases this e) as [->|[p [_ [_ ->]]]];
    rewrite after_triple, steps_triple.
  - split; [constructor | now left].
  - split.
    + rewrite reads_cons. cbn [reads flat_map app].
      apply reads_dispatch; [intros [] | reflexivity].
    + right. eexists. split; [reflexivity|]. apply updateDispatch_listenerStep.
Qed.

(** X11. A switch to an object that has the id of the current profile
    does not undo a reconciliation: after any change batch, such a call
    is a no-op and the service stays on the profile the batch left. *)
Theorem updateCurrentProfile_keeps_reconciled (this : UserDataProfileService)
    (e : DidChangeProfilesEvent) (stale : IUserDataProfile)
    (preserveData : bool) (now : nat) :
  id stale = id (currentProfile this) ->
  let s := after (onDidChangeProfiles e this) in
  updateCurrentProfile stale preserveData now s = (SettlesAt now Fulfilled, s, []).
Proof.
  intros Hid s. apply updateCurrentProfile_same. subst s.
  destruct (onDidChangeProfiles_cases this e) as [->|[p [_ [Hp ->]]]];
    rewrite after_triple.
  - now symmetry.
  - unfold currentProfile, withCurrentProfile. cbn [_currentProfile].
    unfold currentProfile in *. congruence.
Qed.

Lemma updateCurrentProfile_keeps_reconciled_witness :
  let s := after (onDidChangeProfiles (Sample.batch [Sample.workRenamed])
                    Sample.atWork) in
  id Sample.work = id (currentProfile Sample.atWork) /\
  currentProfile s = Sample.workRenamed /\
  updateCurrentProfile Sample.work true 5 s = (SettlesAt 5 Fulfilled, s, []).
Proof.
  intros s. split; [reflexivity|]. split; [reflexivity|].
  exact (updateCurrentProfile_keeps_reconciled Sample.atWork
           (Sample.batch [Sample.workRenamed]) Sample.work true 5 eq_refl).
Defined.

(** ** The service over its lifetime *)

(** X12. Whatever the operations on a service are, every event that a
    change listener receives tells of a real change: the ids of its
    [previous] and of its [profile] differ. *)
Theorem change_events_change_the_id (ops : list Op)
    (this : UserDataProfileService) (i : nat)
    (e : DidChangeUserDataProfileEvent) :
  In (i, e) (changeInvocations (steps (performAll ops this))) ->
  id (previous e) <> id (profile e).
Proof.
  destruct (performAll_facts ops this) as [_ [_ [_ [_ [_ H]]]]]. apply H.
Qed.

Lemma change_events_change_the_id_witness :
  let e := {| preserveData := false; previous := Sample.workRenamed;
              profile := Sample.temp |} in
  In (0, e)
    (changeInvocations
       (steps (performAll Scenario.session (constructor Sample.defaultProfile))))
  /\ id (previous e) <> id (profile e).
Proof.
  intros e.
  assert (H : In (0, e)
                (changeInvocations
                   (steps (performAll Scenario.session
                             (constructor Sample.defaultProfile)))))
    by (vm_compute; right; now left).
  split; [exact H|].
  exact (change_events_change_the_id Scenario.session
           (constructor Sample.defaultProfile) 0 e H).
Defined.

(** X13. The current profile is always an object that was handed to the
    service: the profile it was constructed with, the target of a switch
    or an updated entry of a change batch; and so is every profile the
    service ever assigns. *)
Theorem current_profile_was_offered (ops : list Op)
    (this : UserDataProfileService) :
  let r := performAll ops this in
  In (currentProfile (after r)) (currentProfile this :: offered ops) /\
  Forall (fun p => In p (offered ops)) (sets (steps r)).
Proof.
  destruct (performAll_facts ops this) as [H1 [H2 _]]. split; assumption.
Qed.

(** X14. The id of the current profile is the id of the target of the
    last switch that was asked for, whether that switch was a no-op or
    not, and the id the service started with when there was no switch;
    change batches of the catalog and subscriptions play no part. *)
Theorem current_id_is_last_switch (ops : list Op)
    (this : UserDataProfileService) :
  id (currentProfile (after (performAll ops this)))
  = lastSwitchId (id (currentProfile this)) ops.
Proof.
  destruct (performAll_facts ops this) as [_ [_ [H _]]]. exact H.
Qed.

(** X15. Switches and change batches leave the registries alone: after
    any operations the change listeners are those the service had,
    followed by those subscribed since, in the order of subscription, and
    likewise for the update listeners. *)
Theorem registries_grow_in_order (ops : list Op)
    (this : UserDataProfileService) :
  let r := performAll ops this in
  _onDidChangeCurrentProfile (after r)
  = _onDidChangeCurrentProfile this ++ changeSubscriptions ops /\
  _onDidUpdateCurrentProfile (after r)
  = _onDidUpdateCurrentProfile this ++ updateSubscriptions ops.
Proof.
  destruct (performAll_facts ops this) as [_ [_ [_ [H1 [H2 _]]]]].
  split; assumption.
Qed.
